(** * haproxy-ingress: certificate automation and endpoint resolution

    A shallow embedding of [pkg/acme/signer.go] and
    [pkg/converters/utils/services.go], with the properties of the
    specification stated and proved over it. *)

From Stdlib Require Import ZArith Lia Ascii String DecimalString DecimalPos.
From stdpp Require Import base strings list sorting gmap.

Local Open Scope string_scope.
Local Open Scope list_scope.
Local Open Scope Z_scope.

(** ** Go runtime conventions shared by both packages *)

(** A Go [error] value.  [Errorf msg] is a value allocated by a
    [fmt.Errorf] call of the modelled packages.  [Collab tag] is a value
    handed over by a collaborator (cache, signing client, DNS): the
    embedded code only tests it against nil and hands it on, so it is
    kept as an opaque [tag], and it is never the value a [fmt.Errorf]
    call of these packages has just allocated. *)
Inductive error : Type :=
  | Errorf (msg : string)
  | Collab (tag : string).

(** What a collaborator returns in its [error] position. *)
Definition lift_err (e : option string) : option error := Collab <$> e.

(** Run-time panics the modelled code can raise. *)
Inductive PanicKind : Type :=
  | NilDereference
  | IndexOutOfRange
  | TypeAssertion.

(** Result of running a piece of Go code over a state [S]: it returns
    normally with a value or it panics. *)
Inductive Outcome (S A : Type) : Type :=
  | Ok (a : A) (s : S)
  | Panic (why : PanicKind) (s : S).
Arguments Ok {S A} a s.
Arguments Panic {S A} why s.

Definition M (S A : Type) : Type := S -> Outcome S A.

Definition ret {S A} (a : A) : M S A := fun s => Ok a s.

Definition bind {S A B} (m : M S A) (k : A -> M S B) : M S B :=
  fun s => match m s with
           | Ok a s' => k a s'
           | Panic why s' => Panic why s'
           end.

Definition panic {S A} (why : PanicKind) : M S A := fun s => Panic why s.
Definition gets {S A} (f : S -> A) : M S A := fun s => Ok (f s) s.
Definition modify {S} (f : S -> S) : M S unit := fun s => Ok tt (f s).

Declare Scope go_scope.
Delimit Scope go_scope with go.
Notation "x <- c1 ;; c2" := (bind c1 (fun x => c2))
  (at level 20, c1 at level 99, c2 at level 200, only parsing) : go_scope.
Notation "' pat <- c1 ;; c2" := (bind c1 (fun x => match x with pat => c2 end))
  (at level 20, pat pattern, c1 at level 99, c2 at level 200, only parsing) : go_scope.
Notation "c1 ;;; c2" := (bind c1 (fun _ => c2))
  (at level 100, c2 at level 200, only parsing, right associativity) : go_scope.

(** [for _, x := range l { acc = body acc x }] with the loop-carried
    variables gathered in [acc]. *)
Fixpoint for_range {S A B} (l : list A) (body : B -> A -> M S B) (acc : B) : M S B :=
  match l with
  | [] => ret acc
  | x :: l' => bind (body acc x) (fun acc' => for_range l' body acc')
  end.

(** Dereference of a pointer that may be nil. *)
Definition deref {S A} (p : option A) : M S A :=
  match p with
  | Some a => ret a
  | None => panic NilDereference
  end.

(** Go's [int] on the 64-bit targets the controller is built for. *)
Definition int_wrap (z : Z) : Z := (z + 2 ^ 63) mod 2 ^ 64 - 2 ^ 63.

(** [strconv.Itoa]. *)
Definition Itoa (z : Z) : string := NilZero.string_of_int (Z.to_int z).

(** [strings.Split(s, sep)] for a one-byte separator: the pieces between
    the occurrences of [sep], one more than there are occurrences. *)
Fixpoint strings_Split (s : string) (sep : ascii) : list string :=
  match s with
  | EmptyString => [EmptyString]
  | String c rest =>
      match strings_Split rest sep with
      | cur :: more =>
          if Ascii.eqb c sep then EmptyString :: cur :: more
          else String c cur :: more
      | [] => []
      end
  end.

(** ** [pkg/acme]: the signer *)
Module Acme.

(** [time.Time] as an instant and [time.Duration] as a span, both counted
    in nanoseconds. *)
Definition Time : Type := Z.
Definition Duration : Type := Z.
Definition Time_Add (t : Time) (d : Duration) : Time := t + d.
Definition Time_Before (t u : Time) : bool := t <? u.

(** The fields of [x509.Certificate] the signer reads. *)
Record Certificate : Type := {
  NotAfter : Time;
  DNSNames : list string;
}.

(** [TLSSecret]; the private key is kept as its bytes.  A non-nil
    [*TLSSecret] handed over by the cache carries a parsed certificate. *)
Record TLSSecret : Type := {
  Crt : Certificate;
  Key : string;
}.

(** [Account], as built by [AcmeAccount]. *)
Record Account : Type := {
  Endpoint : string;
  Emails : string;
  TermsAgreed : bool;
}.

(** [reflect.DeepEqual] on two [Account] values: field by field. *)
Definition Account_DeepEqual (a b : Account) : bool :=
  bool_decide (Endpoint a = Endpoint b)
  && bool_decide (Emails a = Emails b)
  && bool_decide (TermsAgreed a = TermsAgreed b).

Inductive LogLevel : Type := Info | InfoV2 | Warn.

(** The log lines of the signer, named after their format strings;
    the formatted arguments are not modelled. *)
Inductive LogMsg : Type :=
  | MsgLoadingAccount
  | MsgErrorCreatingClient
  | MsgAuthorizing
  | MsgNewCertificateIssued
  | MsgErrorStoring
  | MsgErrorSigning
  | MsgSkippingSign.

(** The collaborators of the signer: the clock, the [SignerResolver] part
    of the cache, the [Client] interface and its constructor.  [Env] is
    the state of the world outside the signer (stored secrets, the
    certificate authority, the clock). *)
Record Collaborators : Type := {
  Env : Type;
  Client : Type;
  time_Now : Env -> Time;
  GetTLSSecretContent : string -> Env -> option TLSSecret;
  SetTLSSecretContent : string -> string -> string -> Env -> option string * Env;
  Sign : Client -> list string -> Env -> (string * string * option string) * Env;
  NewClient : Account -> Env -> (Client + string) * Env;
}.

Section Signer.
Variable C : Collaborators.

(** Calls that leave the signer, in the order they are made. *)
Inductive Event : Type :=
  | EvNow
  | EvGetTLSSecretContent (secretName : string)
  | EvSetTLSSecretContent (secretName pemCrt pemKey : string)
  | EvSign (c : Client C) (domains : list string)
  | EvNewClient (account : Account)
  | EvLog (lvl : LogLevel) (msg : LogMsg).

(** The [signer] struct; [logger] and [cache] are the collaborators. *)
Record signer : Type := {
  account : Account;
  client : option (Client C);
  expiring : Duration;
  verifyCount : Z;
}.

(** What a method of [*signer] runs over: the receiver, the outside
    world and the calls made so far. *)
Record State : Type := {
  self : signer;
  env : Env C;
  trace : list Event;
}.

Definition emit (e : Event) : M State unit :=
  modify (fun st => {| self := self st; env := env st; trace := trace st ++ [e] |}).

Definition set_self (s : signer) : M State unit :=
  modify (fun st => {| self := s; env := env st; trace := trace st |}).

Definition call {A} (e : Event) (f : Env C -> A * Env C) : M State A :=
  fun st => let '(a, w) := f (env st) in
            Ok a {| self := self st; env := w; trace := trace st ++ [e] |}.

Definition logger (lvl : LogLevel) (msg : LogMsg) : M State unit :=
  emit (EvLog lvl msg).

Definition callNow : M State Time :=
  call EvNow (fun w => (time_Now C w, w)).

Definition cacheGetTLSSecretContent (secretName : string) : M State (option TLSSecret) :=
  call (EvGetTLSSecretContent secretName)
       (fun w => (GetTLSSecretContent C secretName w, w)).

Definition cacheSetTLSSecretContent (secretName pemCrt pemKey : string)
  : M State (option error) :=
  call (EvSetTLSSecretContent secretName pemCrt pemKey)
       (fun w => let '(e, w') := SetTLSSecretContent C secretName pemCrt pemKey w in
                 (lift_err e, w')).

Definition clientSign (c : Client C) (domains : list string)
  : M State (string * string * option error) :=
  call (EvSign c domains)
       (fun w => let '(crt, key, e, w') := Sign C c domains w in
                 (crt, key, lift_err e, w')).

Definition callNewClient (a : Account) : M State (Client C + error) :=
  call (EvNewClient a)
       (fun w => let '(r, w') := NewClient C a w in
                 (match r with inl cl => inl cl | inr e => inr (Collab e) end, w')).

(** [match]: the inner loop keeps scanning after a hit. *)
Definition match_found (domain : string) (dnsnames : list string) : bool :=
  fold_left (fun found dns => if String.eqb domain dns then true else found)
            dnsnames false.

Fixpoint match_ (domains dnsnames : list string) : bool :=
  match domains with
  | [] => true
  | domain :: rest =>
      if negb (match_found domain dnsnames) then false
      else match_ rest dnsnames
  end.

Local Open Scope go_scope.

(** The [switch endpoint] that opens [AcmeAccount]. *)
Definition switch_endpoint (endpoint : string) : string :=
  if String.eqb endpoint "v2" || String.eqb endpoint "v02"
  then "https://acme-v02.api.letsencrypt.org"
  else if String.eqb endpoint "v2-staging" || String.eqb endpoint "v02-staging"
  then "https://acme-staging-v02.api.letsencrypt.org"
  else endpoint.

(** [signer.AcmeAccount]. *)
Definition AcmeAccount (endpoint emails : string) (termsAgreed : bool) : M State unit :=
  let endpoint := switch_endpoint endpoint in
  let account_ :=
    {| Endpoint := endpoint; Emails := emails; TermsAgreed := termsAgreed |} in
  s <- gets self ;;
  if Account_DeepEqual (account s) account_ then ret tt
  else
    set_self {| account := account s; client := None;
                expiring := expiring s; verifyCount := verifyCount s |} ;;;
    if String.eqb endpoint "" && String.eqb emails "" && negb termsAgreed then ret tt
    else
      logger Info MsgLoadingAccount ;;;
      r <- callNewClient account_ ;;
      match r with
      | inr _ => logger Warn MsgErrorCreatingClient
      | inl cl =>
          s <- gets self ;;
          set_self {| account := account_; client := Some cl;
                      expiring := expiring s; verifyCount := verifyCount s |}
      end.

(** [signer.AcmeConfig]. *)
Definition AcmeConfig (expiring_ : Duration) : M State unit :=
  s <- gets self ;;
  set_self {| account := account s; client := client s;
              expiring := expiring_; verifyCount := verifyCount s |}.

(** [signer.HasAccount]. *)
Definition HasAccount (s : signer) : bool :=
  match client s with Some _ => true | None => false end.

(** [signer.verify].  [strdomains] and [why] only feed the log lines,
    whose arguments are not modelled. *)
Definition verify (secretName : string) (domains : list string)
  : M State (option error) :=
  now <- callNow ;;
  s <- gets self ;;
  let duedate := Time_Add now (expiring s) in
  tls <- cacheGetTLSSecretContent secretName ;;
  if match tls with
     | None => true
     | Some t => Time_Before (NotAfter (Crt t)) duedate
                 || negb (match_ domains (DNSNames (Crt t)))
     end
  then
    set_self {| account := account s; client := client s;
                expiring := expiring s;
                verifyCount := int_wrap (verifyCount s + 1) |} ;;;
    logger InfoV2 MsgAuthorizing ;;;
    cl <- deref (client s) ;;
    '(crt, key, err) <- clientSign cl domains ;;
    match err with
    | None =>
        errTLS <- cacheSetTLSSecretContent secretName crt key ;;
        match errTLS with
        | None => logger Info MsgNewCertificateIssued ;;; ret None
        | Some e => logger Warn MsgErrorStoring ;;; ret (Some e)
        end
    | Some e => logger Warn MsgErrorSigning ;;; ret (Some e)
    end
  else
    logger InfoV2 MsgSkippingSign ;;; ret None.

(** The dynamic value behind the [interface{}] argument of [Notify]. *)
Inductive Item : Type :=
  | ItemString (s : string)
  | ItemOther.

Definition ErrUninitialized : error :=
  Errorf "acme: account was not properly initialized".

(** [signer.Notify]. *)
Definition Notify (item : Item) : M State (option error) :=
  s <- gets self ;;
  if negb (HasAccount s) then ret (Some ErrUninitialized)
  else
    str <- match item with
           | ItemString str => ret str
           | ItemOther => panic TypeAssertion
           end ;;
    match strings_Split str "," with
    | secretName :: domains => verify secretName domains
    | [] => panic IndexOutOfRange
    end.

(** Counting the calls of a trace. *)
Definition is_sign (e : Event) : bool :=
  match e with EvSign _ _ => true | _ => false end.

Definition is_store (e : Event) : bool :=
  match e with EvSetTLSSecretContent _ _ _ => true | _ => false end.

Definition sign_calls (evs : list Event) : nat := length (List.filter is_sign evs).
Definition store_calls (evs : list Event) : nat := length (List.filter is_store evs).

(** The renewal condition in the words of the specification: no
    certificate stored, or it expires before [now + expiringWindow], or
    it misses one of the requested domains. *)
Definition renewal_due (s : signer) (w : Env C) (secretName : string)
    (domains : list string) : Prop :=
  match GetTLSSecretContent C secretName w with
  | None => True
  | Some tls =>
      NotAfter (Crt tls) < time_Now C w + expiring s
      \/ ~ (forall d, d ∈ domains -> d ∈ DNSNames (Crt tls))
  end.

End Signer.

Arguments EvNow {C}.
Arguments EvGetTLSSecretContent {C} secretName.
Arguments EvSetTLSSecretContent {C} secretName pemCrt pemKey.
Arguments EvSign {C} c domains.
Arguments EvNewClient {C} account.
Arguments EvLog {C} lvl msg.
Arguments account {C} s.
Arguments client {C} s.
Arguments expiring {C} s.
Arguments verifyCount {C} s.
Arguments self {C} s.
Arguments env {C} s.
Arguments trace {C} s.
Arguments HasAccount {C} s.
Arguments sign_calls {C} evs.
Arguments store_calls {C} evs.

(** *** A scripted stand-in for the collaborators

    The world holds a clock, the stored secrets, and switches that make
    the certificate authority or the secret store fail; a successful
    store files the certificate [issued] under the secret name.  A
    client is identified by its account. *)
Record Scripted : Type := {
  clock : Time;
  secrets : gmap string TLSSecret;
  issued : Certificate;
  sign_fails : bool;
  store_fails : bool;
}.

Definition scripted : Collaborators := {|
  Env := Scripted;
  Client := Account;
  time_Now w := clock w;
  GetTLSSecretContent secretName w := secrets w !! secretName;
  SetTLSSecretContent secretName pemCrt pemKey w :=
    if store_fails w then (Some "store failed", w)
    else (None, {| clock := clock w;
                   secrets := <[secretName := {| Crt := issued w; Key := pemKey |}]> (secrets w);
                   issued := issued w;
                   sign_fails := sign_fails w;
                   store_fails := store_fails w |});
  Sign c domains w :=
    if sign_fails w then ("", "", Some "sign failed", w)
    else ("crt", "key", None, w);
  NewClient a w :=
    if String.eqb (Endpoint a) "unreachable" then (inr "no directory", w)
    else (inl a, w);
|}.

Definition day : Duration := 86400000000000.

Definition letsencrypt : Account :=
  {| Endpoint := "https://acme-v02.api.letsencrypt.org";
     Emails := "ops@example.com"; TermsAgreed := true |}.

(** A signer with a bound client and a 30 day window, after [n]
    issue attempts. *)
Definition counted (n : Z) : signer scripted :=
  {| account := letsencrypt; client := Some (letsencrypt : Client scripted);
     expiring := 30 * day; verifyCount := n |}.

Definition ready_signer : signer scripted := counted 0.

Definition site_cert (expires_in_days : Z) : Certificate :=
  {| NotAfter := expires_in_days * day;
     DNSNames := ["a.example.com"; "b.example.com"] |}.

Definition world (store : gmap string TLSSecret) (ca_down : bool) : Scripted :=
  {| clock := 0; secrets := store; issued := site_cert 90;
     sign_fails := ca_down; store_fails := false |}.

Definition start (s : signer scripted) (w : Scripted) : State scripted :=
  {| self := s; env := w; trace := [] |}.

(** A store that holds a 90 day certificate for both example domains. *)
Definition stored_site_cert : gmap string TLSSecret :=
  {[ "site-tls" := {| Crt := site_cert 90; Key := "key" |} ]}.

(** A signer before any account is configured. *)
Definition no_client : signer scripted :=
  {| account := {| Endpoint := ""; Emails := ""; TermsAgreed := false |};
     client := None; expiring := 30 * day; verifyCount := 0 |}.

End Acme.

(** ** [pkg/converters/utils]: endpoint resolution *)
Module Utils.

Definition defaultServerWeight : Z := 50.
Definition nodeWeightAnnotation : string := "ingress.kubernetes.io/node-weight".

(** *** The Kubernetes objects the resolver reads

    Only the fields read by the embedded functions are kept.  A field
    that is a pointer in the API is an [option]; the objects handed to
    the resolver themselves ([svc], [svcPort], the result of a successful
    lookup, the elements of a slice list) are taken to be non-nil. *)
Module api.
Definition ProtocolTCP : string := "TCP".
Definition ServiceTypeExternalName : string := "ExternalName".

Record ObjectReference : Type := {
  Ref_Namespace : string;
  Ref_Name : string;
}.

Record ServicePort : Type := {
  SvcPort_Name : string;
  SvcPort_Protocol : string;
  SvcPort_Port : Z;
}.

Record Service : Type := {
  Svc_Namespace : string;
  Svc_Name : string;
  Spec_Type : string;
  Spec_ExternalName : string;
}.

Record EndpointAddress : Type := {
  Addr_IP : string;
  Addr_NodeName : option string;
  Addr_TargetRef : option ObjectReference;
}.

Record EndpointPort : Type := {
  EpPort_Name : string;
  EpPort_Port : Z;
  EpPort_Protocol : string;
}.

Record EndpointSubset : Type := {
  Addresses : list EndpointAddress;
  NotReadyAddresses : list EndpointAddress;
  Ports : list EndpointPort;
}.

Record Endpoints : Type := {
  Subsets : list EndpointSubset;
}.

Record Node : Type := {
  Annotations : gmap string string;
}.
End api.

Module discoveryv1.
Record EndpointPort : Type := {
  Name : option string;
  Protocol : option string;
  Port : option Z;
}.

Record EndpointConditions : Type := {
  Ready : option bool;
}.

Record Endpoint : Type := {
  Addresses : list string;
  Conditions : EndpointConditions;
  NodeName : option string;
  TargetRef : option api.ObjectReference;
}.

Record EndpointSlice : Type := {
  Endpoints : list Endpoint;
  Ports : list EndpointPort;
}.
End discoveryv1.

(** [Endpoint], the resolved target. *)
Record Endpoint : Type := {
  IP : string;
  Port : Z;
  Target : string;
  TargetRef : string;
  NodeName : option string;
  Weight : Z;
}.

(** The lookups of [types.Cache] the resolver uses.  A lookup yields its
    value or the collaborator's error; a [net.IP] is kept as the text its
    [String] method prints. *)
Record Cache : Type := {
  GetEndpointSlices : api.Service -> list discoveryv1.EndpointSlice + string;
  GetEndpoints : api.Service -> api.Endpoints + string;
  ExternalNameLookup : string -> list string + string;
  GetNodeByName : string -> api.Node + string;
}.

(** The [klog] and [fmt.Printf] lines of [getNodeWeight], without their
    arguments. *)
Inductive LogLine : Type :=
  | WarnNoNodeName
  | V4SearchingWeight
  | WarnUnableToGetWeight
  | WarnInvalidNodeWeight
  | PrintfFoundWeight
  | V4FoundWeight.

(** What leaves the resolver, in order. *)
Inductive Call : Type :=
  | CallGetEndpointSlices (svc : api.Service)
  | CallGetEndpoints (svc : api.Service)
  | CallExternalNameLookup (externalName : string)
  | CallGetNodeByName (nodeName : string)
  | CallLog (line : LogLine).

(** [strconv.Atoi]: an optional sign, then one or more decimal digits,
    and a value that fits the 64-bit [int]. *)
Definition digit_of (c : ascii) : option Z :=
  let n := Z.of_N (N_of_ascii c) in
  if (48 <=? n) && (n <=? 57) then Some (n - 48) else None.

Fixpoint parse_digits (s : string) (acc : Z) : option Z :=
  match s with
  | EmptyString => Some acc
  | String c rest =>
      match digit_of c with
      | Some d => parse_digits rest (acc * 10 + d)
      | None => None
      end
  end.

Definition Atoi (s : string) : option Z :=
  match s with
  | EmptyString => None
  | String c rest =>
      let neg := Ascii.eqb c "-" in
      let digits := if neg || Ascii.eqb c "+" then rest else s in
      match digits with
      | EmptyString => None
      | _ =>
          match parse_digits digits 0 with
          | None => None
          | Some n =>
              let n := if neg then - n else n in
              if (- 2 ^ 63 <=? n) && (n <? 2 ^ 63) then Some n else None
          end
      end
  end.

(** [sort.Slice(s, less)] as the insertion sort the standard library
    runs on short slices: each element moves left past the elements it
    is [less] than.  The properties below rest only on the outcome being
    an ordered rearrangement, which is what longer slices get too. *)
Fixpoint insert {A} (less : A -> A -> bool) (x : A) (l : list A) : list A :=
  match l with
  | [] => [x]
  | y :: l' => if less x y then x :: y :: l' else y :: insert less x l'
  end.

Definition sort_Slice {A} (less : A -> A -> bool) (l : list A) : list A :=
  fold_left (fun sorted x => insert less x sorted) l [].

Section Resolver.
Variable cache : Cache.

Local Open Scope go_scope.

Definition emit (c : Call) : M (list Call) unit :=
  modify (fun tr => (tr ++ [c])%list).

Definition klog (line : LogLine) : M (list Call) unit := emit (CallLog line).

Definition lift_res {A} (r : A + string) : A + error :=
  match r with inl a => inl a | inr e => inr (Collab e) end.

Definition cacheGetEndpointSlices (svc : api.Service)
  : M (list Call) (list discoveryv1.EndpointSlice + error) :=
  emit (CallGetEndpointSlices svc) ;;; ret (lift_res (GetEndpointSlices cache svc)).

Definition cacheGetEndpoints (svc : api.Service) : M (list Call) (api.Endpoints + error) :=
  emit (CallGetEndpoints svc) ;;; ret (lift_res (GetEndpoints cache svc)).

Definition cacheExternalNameLookup (externalName : string)
  : M (list Call) (list string + error) :=
  emit (CallExternalNameLookup externalName) ;;;
  ret (lift_res (ExternalNameLookup cache externalName)).

Definition cacheGetNodeByName (nodeName : string) : M (list Call) (api.Node + error) :=
  emit (CallGetNodeByName nodeName) ;;; ret (lift_res (GetNodeByName cache nodeName)).

(** [newEndpoint]; [NodeName] and [Weight] keep their zero values. *)
Definition newEndpoint (ip : string) (port : Z) (targetRef : option api.ObjectReference)
  : Endpoint :=
  let targetRefStr :=
    match targetRef with
    | Some ref => api.Ref_Namespace ref +:+ "/" +:+ api.Ref_Name ref
    | None => ""
    end in
  {| IP := ip; Port := port; Target := ip +:+ ":" +:+ Itoa port;
     TargetRef := targetRefStr; NodeName := None; Weight := 0 |}.

Definition with_node (e : Endpoint) (nodeName : option string) (weight : Z) : Endpoint :=
  {| IP := IP e; Port := Port e; Target := Target e; TargetRef := TargetRef e;
     NodeName := nodeName; Weight := weight |}.

(** [getNodeWeight]. *)
Definition getNodeWeight (nodeName : option string) : M (list Call) Z :=
  match nodeName with
  | None => klog WarnNoNodeName ;;; ret defaultServerWeight
  | Some name =>
      klog V4SearchingWeight ;;;
      r <- cacheGetNodeByName name ;;
      match r with
      | inr _ => klog WarnUnableToGetWeight ;;; ret defaultServerWeight
      | inl node =>
          match api.Annotations node !! nodeWeightAnnotation with
          | None => ret defaultServerWeight
          | Some weightStr =>
              match Atoi weightStr with
              | None => ret defaultServerWeight
              | Some weight =>
                  if (weight <? 1) || (weight >? 127)
                  then klog WarnInvalidNodeWeight ;;; ret defaultServerWeight
                  else klog PrintfFoundWeight ;;; klog V4FoundWeight ;;; ret weight
              end
          end
      end
  end.

(** [matchPort]. *)
Definition matchPort (svcPort : api.ServicePort) (epPort : api.EndpointPort) : bool :=
  if negb (String.eqb (api.EpPort_Protocol epPort) api.ProtocolTCP) then false
  else String.eqb (api.SvcPort_Name svcPort) ""
       || String.eqb (api.SvcPort_Name svcPort) (api.EpPort_Name epPort).

(** The two result slices a loop nest appends to. *)
Definition Lists : Type := (list Endpoint * list Endpoint)%type.

(** [createEndpoints]: the legacy, list-based representation. *)
Definition createEndpoints (endpoints : api.Endpoints) (svcPort : api.ServicePort)
  : M (list Call) (list Endpoint * list Endpoint * option error) :=
  '(ready, notReady) <-
    for_range (api.Subsets endpoints) (fun (acc : Lists) subset =>
      for_range (api.Ports subset) (fun (acc : Lists) epPort =>
        if matchPort svcPort epPort then
          let port := api.EpPort_Port epPort in
          acc <- for_range (api.Addresses subset) (fun (acc : Lists) addr =>
                   let endpoint := newEndpoint (api.Addr_IP addr) port (api.Addr_TargetRef addr) in
                   weight <- getNodeWeight (api.Addr_NodeName addr) ;;
                   ret ((acc.1 ++ [with_node endpoint (api.Addr_NodeName addr) weight])%list, acc.2))
                 acc ;;
          for_range (api.NotReadyAddresses subset) (fun (acc : Lists) addr =>
            ret (acc.1,
                 (acc.2 ++ [newEndpoint (api.Addr_IP addr) port (api.Addr_TargetRef addr)])%list))
            acc
        else ret acc) acc) ([], []) ;;
  ret (ready, notReady, None).

(** [createEndpointSlices]: the slice-based representation. *)
Definition createEndpointSlices (endpointSlices : list discoveryv1.EndpointSlice)
    (svcPort : api.ServicePort)
  : M (list Call) (list Endpoint * list Endpoint * option error) :=
  '(ready, notReady) <-
    for_range endpointSlices (fun (acc : Lists) endpointSlice =>
      for_range (discoveryv1.Ports endpointSlice) (fun (acc : Lists) epPort =>
        let svcPortProtocol :=
          if negb (String.eqb (api.SvcPort_Protocol svcPort) "")
          then api.SvcPort_Protocol svcPort else api.ProtocolTCP in
        epProtocol <- deref (discoveryv1.Protocol epPort) ;;
        if negb (String.eqb svcPortProtocol epProtocol) then ret acc
        else
          skip <- (if negb (String.eqb (api.SvcPort_Name svcPort) "")
                   then epName <- deref (discoveryv1.Name epPort) ;;
                        ret (negb (String.eqb (api.SvcPort_Name svcPort) epName))
                   else ret false) ;;
          if (skip : bool) then ret acc
          else
            for_range (discoveryv1.Endpoints endpointSlice) (fun (acc : Lists) endpoint =>
              address <- match discoveryv1.Addresses endpoint with
                         | a :: _ => ret a
                         | [] => panic IndexOutOfRange
                         end ;;
              port <- deref (discoveryv1.Port epPort) ;;
              let domainEndpoint :=
                newEndpoint address port (discoveryv1.TargetRef endpoint) in
              weight <- getNodeWeight (discoveryv1.NodeName endpoint) ;;
              let domainEndpoint :=
                with_node domainEndpoint (discoveryv1.NodeName endpoint) weight in
              match discoveryv1.Ready (discoveryv1.Conditions endpoint) with
              | None | Some true => ret ((acc.1 ++ [domainEndpoint])%list, acc.2)
              | Some false => ret (acc.1, (acc.2 ++ [domainEndpoint])%list)
              end) acc) acc) ([], []) ;;
  ret (ready, notReady, None).

(** [createEndpointsExternalName]. *)
Definition createEndpointsExternalName (svc : api.Service) (svcPort : api.ServicePort)
  : M (list Call) (list Endpoint * option error) :=
  let port := api.SvcPort_Port svcPort in
  if port <=? 0 then ret ([], Some (Errorf ("invalid port number: " +:+ Itoa port)))
  else
    r <- cacheExternalNameLookup (api.Spec_ExternalName svc) ;;
    match r with
    | inr err => ret ([], Some err)
    | inl addr => ret (map (fun ip => newEndpoint ip port None) addr, None)
    end.

Definition less_Target (a b : Endpoint) : bool := String.ltb (Target a) (Target b).

(** [CreateEndpoints].  The [switch] either returns at once (a failed
    lookup of the endpoint data) or leaves [ready], [notReady] and [err]
    for the sorting that follows. *)
Definition CreateEndpoints (svc : api.Service) (svcPort : api.ServicePort)
    (useEndpointSlices : bool)
  : M (list Call) (list Endpoint * list Endpoint * option error) :=
  r <- (if String.eqb (api.Spec_Type svc) api.ServiceTypeExternalName then
          '(ready, err) <- createEndpointsExternalName svc svcPort ;;
          ret (inr (ready, [], err))
        else if useEndpointSlices then
          r <- cacheGetEndpointSlices svc ;;
          match r with
          | inr err1 => ret (inl ([], [], Some err1))
          | inl endpoints => x <- createEndpointSlices endpoints svcPort ;; ret (inr x)
          end
        else
          r <- cacheGetEndpoints svc ;;
          match r with
          | inr err1 => ret (inl ([], [], Some err1))
          | inl endpoints => x <- createEndpoints endpoints svcPort ;; ret (inr x)
          end) ;;
  match r with
  | inl early => ret early
  | inr (ready, notReady, err) =>
      ret (sort_Slice less_Target ready, sort_Slice less_Target notReady, err)
  end.

(** *** The resolver in the words of the specification *)

(** The weight of an endpoint: the node's integer annotation when it
    lies in 1..127, and the default on a missing node reference, a failed
    lookup, a missing annotation, a value that is not a number or one
    out of range. *)
Definition node_weight (nodeName : option string) : Z :=
  match nodeName with
  | None => defaultServerWeight
  | Some name =>
      match GetNodeByName cache name with
      | inr _ => defaultServerWeight
      | inl node =>
          match api.Annotations node !! nodeWeightAnnotation with
          | None => defaultServerWeight
          | Some weightStr =>
              match Atoi weightStr with
              | None => defaultServerWeight
              | Some weight =>
                  if (1 <=? weight) && (weight <=? 127) then weight
                  else defaultServerWeight
              end
          end
      end
  end.

(** A slice port is of interest when its protocol is the service port's
    declared one (TCP when none is declared) and, when the service port
    has a name, it carries that name. *)
Definition port_selected (svcPort : api.ServicePort) (epPort : discoveryv1.EndpointPort)
  : bool :=
  bool_decide (discoveryv1.Protocol epPort
               = Some (if bool_decide (api.SvcPort_Protocol svcPort = "")
                       then api.ProtocolTCP else api.SvcPort_Protocol svcPort))
  && (bool_decide (api.SvcPort_Name svcPort = "")
      || bool_decide (discoveryv1.Name epPort = Some (api.SvcPort_Name svcPort))).

(** Ready unless the flag is present and false. *)
Definition is_ready (endpoint : discoveryv1.Endpoint) : bool :=
  match discoveryv1.Ready (discoveryv1.Conditions endpoint) with
  | Some false => false
  | _ => true
  end.

(** The target made from a slice endpoint: its first address, the port
    of the slice port, its node and that node's weight. *)
Definition slice_target (epPort : discoveryv1.EndpointPort)
    (endpoint : discoveryv1.Endpoint) : Endpoint :=
  with_node (newEndpoint (hd "" (discoveryv1.Addresses endpoint))
                         (default 0 (discoveryv1.Port epPort))
                         (discoveryv1.TargetRef endpoint))
            (discoveryv1.NodeName endpoint)
            (node_weight (discoveryv1.NodeName endpoint)).

(** The endpoints of the slices that go to the ready list
    ([ready = true]) or to the notReady list ([ready = false]). *)
Definition resolved (svcPort : api.ServicePort) (ready : bool)
    (endpointSlices : list discoveryv1.EndpointSlice) : list Endpoint :=
  flat_map (fun endpointSlice =>
    flat_map (fun epPort =>
      if port_selected svcPort epPort then
        flat_map (fun endpoint =>
          if Bool.eqb (is_ready endpoint) ready
          then [slice_target epPort endpoint] else [])
          (discoveryv1.Endpoints endpointSlice)
      else [])
      (discoveryv1.Ports endpointSlice))
    endpointSlices.

End Resolver.

(** Slices as the API server validates them: every port has its name,
    protocol and number set, every endpoint has at least one address. *)
Definition port_set (epPort : discoveryv1.EndpointPort) : Prop :=
  is_Some (discoveryv1.Name epPort)
  /\ is_Some (discoveryv1.Protocol epPort)
  /\ is_Some (discoveryv1.Port epPort).

Definition ports_set (endpointSlices : list discoveryv1.EndpointSlice) : Prop :=
  Forall (fun endpointSlice => Forall port_set (discoveryv1.Ports endpointSlice))
         endpointSlices.

Definition addresses_set (endpointSlices : list discoveryv1.EndpointSlice) : Prop :=
  Forall (fun endpointSlice =>
            Forall (fun endpoint => discoveryv1.Addresses endpoint <> [])
                   (discoveryv1.Endpoints endpointSlice))
         endpointSlices.

Definition weight_ok (e : Endpoint) : Prop := 1 <= Weight e <= 127.

(** Ascending by [Target], in Go's byte-wise string order. *)
Definition sorted_by_Target (l : list Endpoint) : Prop :=
  StronglySorted (fun a b => String.le (Target a) (Target b)) l.

(** *** Scripted lookups *)
Definition scripted_cache (slices : list discoveryv1.EndpointSlice + string)
    (endpoints : api.Endpoints + string) (dns : list string + string)
    (nodes : gmap string api.Node) : Cache := {|
  GetEndpointSlices _ := slices;
  GetEndpoints _ := endpoints;
  ExternalNameLookup _ := dns;
  GetNodeByName nodeName :=
    match nodes !! nodeName with
    | Some node => inl node
    | None => inr "node not found"
    end;
|}.

Definition http_port : api.ServicePort :=
  {| api.SvcPort_Name := "http"; api.SvcPort_Protocol := ""; api.SvcPort_Port := 8080 |}.

Definition cluster_svc : api.Service :=
  {| api.Svc_Namespace := "default"; api.Svc_Name := "web";
     api.Spec_Type := "ClusterIP"; api.Spec_ExternalName := "" |}.

Definition external_svc : api.Service :=
  {| api.Svc_Namespace := "default"; api.Svc_Name := "upstream";
     api.Spec_Type := api.ServiceTypeExternalName;
     api.Spec_ExternalName := "upstream.example.com" |}.

Definition slice_port : discoveryv1.EndpointPort :=
  {| discoveryv1.Name := Some "http"; discoveryv1.Protocol := Some "TCP";
     discoveryv1.Port := Some 8080 |}.

Definition slice_endpoint (addresses : list string) (ready : option bool)
  : discoveryv1.Endpoint :=
  {| discoveryv1.Addresses := addresses;
     discoveryv1.Conditions := {| discoveryv1.Ready := ready |};
     discoveryv1.NodeName := None; discoveryv1.TargetRef := None |}.

(** One address marked not ready, one whose readiness is absent. *)
Definition two_endpoints : list discoveryv1.EndpointSlice :=
  [ {| discoveryv1.Endpoints := [slice_endpoint ["10.0.0.1"] (Some false);
                                 slice_endpoint ["10.0.0.2"] None];
       discoveryv1.Ports := [slice_port] |} ].

(** An endpoint entry without any address. *)
Definition no_address : list discoveryv1.EndpointSlice :=
  [ {| discoveryv1.Endpoints := [slice_endpoint [] (Some true)];
       discoveryv1.Ports := [slice_port] |} ].

(** A legacy endpoints object with one ready address on a node the
    cache does not know, and one address that is not ready. *)
Definition legacy_endpoints : api.Endpoints :=
  {| api.Subsets :=
       [ {| api.Addresses := [ {| api.Addr_IP := "10.0.0.1";
                                  api.Addr_NodeName := Some "node-1";
                                  api.Addr_TargetRef := None |} ];
            api.NotReadyAddresses := [ {| api.Addr_IP := "10.0.0.2";
                                          api.Addr_NodeName := Some "node-1";
                                          api.Addr_TargetRef := None |} ];
            api.Ports := [ {| api.EpPort_Name := "http"; api.EpPort_Port := 8080;
                              api.EpPort_Protocol := "TCP" |} ] |} ] |}.

Definition legacy_cache : Cache :=
  scripted_cache (inl []) (inl legacy_endpoints) (inl []) ∅.

Definition dns_cache : Cache :=
  scripted_cache (inl []) (inr "no endpoints") (inl ["192.0.2.7"; "192.0.2.3"]) ∅.

Definition slices_cache (slices : list discoveryv1.EndpointSlice) : Cache :=
  scripted_cache (inl slices) (inr "no endpoints") (inr "no such host") ∅.

End Utils.

(** ** Further functions of the two packages *)

(** [strings.Join(elems, sep)] for a one-byte separator. *)
Fixpoint strings_Join (elems : list string) (sep : ascii) : string :=
  match elems with
  | [] => ""
  | [e] => e
  | e :: rest => e +:+ String sep (strings_Join rest sep)
  end.


(** The conversion [int32(n)] of a 64-bit integer. *)
Definition int32_wrap (z : Z) : Z := (z + 2 ^ 31) mod 2 ^ 32 - 2 ^ 31.

(** The state an outcome ends in, returned or not. *)
Definition state_of {S A} (o : Outcome S A) : S :=
  match o with
  | Ok _ s => s
  | Panic _ s => s
  end.

(** [x] is the first element of [l] with the property [P]. *)
Definition first_such {A} (P : A -> Prop) (l : list A) (x : A) : Prop :=
  exists l1 l2, l = l1 ++ x :: l2 /\ P x /\ Forall (fun y => ~ P y) l1.

(** *** [strconv]: the value that comes with an error

    [strconv.Atoi] hands back a value together with its error: 0 on a
    syntax error, the nearest bound on a range error.  Callers that drop
    the error use that value. *)
Inductive NumError : Type := ErrSyntax | ErrRange.

(** The digit loop of [strconv.ParseUint(s, 10, 64)]. *)
Fixpoint ParseUint_loop (s : string) (n : Z) : Z * option NumError :=
  match s with
  | EmptyString => (n, None)
  | String c rest =>
      match Utils.digit_of c with
      | None => (0, Some ErrSyntax)
      | Some d =>
          if (2 ^ 64 - 1) / 10 + 1 <=? n then (2 ^ 64 - 1, Some ErrRange)
          else
            let n1 := n * 10 + d in
            if 2 ^ 64 - 1 <? n1 then (2 ^ 64 - 1, Some ErrRange)
            else ParseUint_loop rest n1
      end
  end.

(** [strconv.Atoi] with the value it returns beside the error. *)
Definition Atoi_pair (s : string) : Z * option NumError :=
  match s with
  | EmptyString => (0, Some ErrSyntax)
  | String c rest =>
      let neg := Ascii.eqb c "-" in
      let digits := if neg || Ascii.eqb c "+" then rest else s in
      match digits with
      | EmptyString => (0, Some ErrSyntax)
      | _ =>
          match ParseUint_loop digits 0 with
          | (_, Some ErrSyntax) => (0, Some ErrSyntax)
          | (un, _) =>
              if negb neg && (2 ^ 63 <=? un) then (2 ^ 63 - 1, Some ErrRange)
              else if neg && (2 ^ 63 <? un) then (- 2 ^ 63, Some ErrRange)
              else (if neg then - un else un, None)
          end
      end
  end.

(** ** [pkg/converters/utils]: the port helpers *)
Module Services.
Import Utils.

(** [intstr.IntOrString] with its [String] and [IntValue] methods. *)
Inductive IntOrString : Type :=
  | FromInt (IntVal : Z)
  | FromString (StrVal : string).

Definition IntOrString_String (t : IntOrString) : string :=
  match t with
  | FromString s => s
  | FromInt i => Itoa i
  end.

Definition IntOrString_IntValue (t : IntOrString) : Z :=
  match t with
  | FromString s => (Atoi_pair s).1
  | FromInt i => i
  end.

(** An [api.ServicePort] with the [TargetPort] field, which the
    resolver above never reads. *)
Record ServicePort : Type := {
  Base : api.ServicePort;
  TargetPort : IntOrString;
}.

(** The parts of [api.Pod] that [FindContainerPort] reads. *)
Record ContainerPort : Type := {
  CPort_Name : string;
  CPort_ContainerPort : Z;
  CPort_Protocol : string;
}.

Record Container : Type := {
  Container_Ports : list ContainerPort;
}.

Record Pod : Type := {
  Spec_Containers : list Container;
}.

(** [for _, x := range l { ... }] with a body that may return: the
    value returned from inside the loop, if any. *)
Fixpoint range_find {A B} (body : A -> option B) (l : list A) : option B :=
  match l with
  | [] => None
  | x :: l' =>
      match body x with
      | Some b => Some b
      | None => range_find body l'
      end
  end.

(** [FindServicePort], over [svc.Spec.Ports]. *)
Definition FindServicePort (ports : list ServicePort) (servicePort : string)
  : option ServicePort :=
  match range_find
          (fun port =>
             if String.eqb (api.SvcPort_Name (Base port)) servicePort
                || String.eqb (IntOrString_String (TargetPort port)) servicePort
             then Some port else None) ports with
  | Some port => Some port
  | None =>
      match Atoi servicePort with
      | None => None
      | Some svcPortNumber =>
          let svcPort := int32_wrap svcPortNumber in
          range_find (fun port =>
                        if api.SvcPort_Port (Base port) =? svcPort
                        then Some port else None) ports
      end
  end.

(** [FindContainerPort]; 0 stands for a port that was not found. *)
Definition FindContainerPort (pod : Pod) (svcPort : ServicePort) : Z :=
  let targetPort := IntOrString_IntValue (TargetPort svcPort) in
  if 0 <? targetPort then targetPort
  else
    let portName := IntOrString_String (TargetPort svcPort) in
    match range_find
            (fun c =>
               range_find
                 (fun port =>
                    if String.eqb (CPort_Protocol port)
                                  (api.SvcPort_Protocol (Base svcPort))
                       && String.eqb (CPort_Name port) portName
                    then Some (CPort_ContainerPort port) else None)
                 (Container_Ports c))
            (Spec_Containers pod) with
    | Some port => port
    | None => 0
    end.

(** *** The legacy resolver in the words of the code's layout

    What the legacy loop nest collects: for every subset and every TCP
    port of it that carries the service port's name, the addresses with
    their node and weight, and the addresses that are not ready as bare
    targets. *)
Definition legacy_ready (cache : Cache) (svcPort : api.ServicePort)
    (endpoints : api.Endpoints) : list Endpoint :=
  flat_map (fun subset =>
    flat_map (fun epPort =>
      if matchPort svcPort epPort then
        map (fun addr =>
               with_node (newEndpoint (api.Addr_IP addr) (api.EpPort_Port epPort)
                                      (api.Addr_TargetRef addr))
                         (api.Addr_NodeName addr)
                         (node_weight cache (api.Addr_NodeName addr)))
            (api.Addresses subset)
      else [])
      (api.Ports subset))
    (api.Subsets endpoints).

Definition legacy_notReady (svcPort : api.ServicePort) (endpoints : api.Endpoints)
  : list Endpoint :=
  flat_map (fun subset =>
    flat_map (fun epPort =>
      if matchPort svcPort epPort then
        map (fun addr => newEndpoint (api.Addr_IP addr) (api.EpPort_Port epPort)
                                     (api.Addr_TargetRef addr))
            (api.NotReadyAddresses subset)
      else [])
      (api.Ports subset))
    (api.Subsets endpoints).

(** What [FindServicePort] compares a port with: the text by name or
    target port, the number by port. *)
Definition names_port (servicePort : string) (port : ServicePort) : Prop :=
  api.SvcPort_Name (Base port) = servicePort
  \/ IntOrString_String (TargetPort port) = servicePort.

Definition numbered_port (svcPortNumber : Z) (port : ServicePort) : Prop :=
  api.SvcPort_Port (Base port) = int32_wrap svcPortNumber.

(** The container ports [FindContainerPort] looks for by name. *)
Definition serves (svcPort : ServicePort) (port : ContainerPort) : Prop :=
  CPort_Protocol port = api.SvcPort_Protocol (Base svcPort)
  /\ CPort_Name port = IntOrString_String (TargetPort svcPort).

(** The lookups of endpoint data in a trace, and the node lookups. *)
Definition is_data_call (c : Call) : bool :=
  match c with
  | CallGetEndpointSlices _ | CallGetEndpoints _ | CallExternalNameLookup _ => true
  | _ => false
  end.

Definition node_lookups (tr : list Call) : list string :=
  flat_map (fun c => match c with CallGetNodeByName n => [n] | _ => [] end) tr.

(** The one lookup of endpoint data a resolution makes. *)
Definition data_lookup (svc : api.Service) (svcPort : api.ServicePort)
    (useEndpointSlices : bool) : list Call :=
  if String.eqb (api.Spec_Type svc) api.ServiceTypeExternalName then
    if api.SvcPort_Port svcPort <=? 0 then []
    else [CallExternalNameLookup (api.Spec_ExternalName svc)]
  else if useEndpointSlices then [CallGetEndpointSlices svc]
  else [CallGetEndpoints svc].

(** [s'] extends [s] by calls none of which looks up endpoint data. *)
Definition quiet (s s' : list Call) : Prop :=
  exists evs, s' = s ++ evs /\ List.filter is_data_call evs = [].

(** A slice with the example port and one endpoint for each address. *)
Definition slice_of (addresses : list string) : discoveryv1.EndpointSlice :=
  {| discoveryv1.Endpoints := map (fun a => slice_endpoint [a] None) addresses;
     discoveryv1.Ports := [slice_port] |}.

(** A cache knowing one node, annotated with the given weight text. *)
Definition weighted_node_cache (nodeName weight : string) : Cache :=
  scripted_cache (inl []) (inr "no endpoints") (inr "no such host")
    {[ nodeName := {| api.Annotations := {[ nodeWeightAnnotation := weight ]} |} ]}.

Definition named_port (name : string) (port : Z) (target : IntOrString) : ServicePort :=
  {| Base := {| api.SvcPort_Name := name; api.SvcPort_Protocol := "TCP";
                api.SvcPort_Port := port |};
     TargetPort := target |}.

Definition web_ports : list ServicePort :=
  [named_port "http" 80 (FromInt 8080); named_port "https" 443 (FromString "tls")].

Definition web_pod : Pod :=
  {| Spec_Containers :=
       [ {| Container_Ports := [ {| CPort_Name := "metrics"; CPort_ContainerPort := 9090;
                                    CPort_Protocol := "TCP" |} ] |};
         {| Container_Ports := [ {| CPort_Name := "tls"; CPort_ContainerPort := 8443;
                                    CPort_Protocol := "TCP" |} ] |} ] |}.

End Services.

(** ** [pkg/common/ingress/annotations/parser] *)
Module Parser.

(** [strconv.ParseBool]. *)
Definition ParseBool (str : string) : option bool :=
  if existsb (String.eqb str) ["1"; "t"; "T"; "TRUE"; "true"; "True"] then Some true
  else if existsb (String.eqb str) ["0"; "f"; "F"; "FALSE"; "false"; "False"] then Some false
  else None.

(** The annotations of an [Ingress] or a [Node]; the object itself may
    be a nil pointer, which [checkAnnotation] turns away before
    [GetAnnotations] is called. *)
Record Object : Type := {
  Annotations : gmap string string;
}.

Definition GetAnnotations (o : Object) : gmap string string := Annotations o.

Section Errors.
(** The values and the constructor of the package [errors], which is
    not part of the embedded files. *)
Variables ErrMissingAnnotations ErrInvalidAnnotationName : error.
Variable NewInvalidAnnotationContent : string -> string -> error.

(** [metaAnnotations.parseBool]. *)
Definition parseBool (a : gmap string string) (name : string) : bool * option error :=
  match a !! name with
  | Some val =>
      match ParseBool val with
      | None => (false, Some (NewInvalidAnnotationContent name val))
      | Some b => (b, None)
      end
  | None => (false, Some ErrMissingAnnotations)
  end.

(** [metaAnnotations.parseString]. *)
Definition parseString (a : gmap string string) (name : string) : string * option error :=
  match a !! name with
  | Some val => (val, None)
  | None => ("", Some ErrMissingAnnotations)
  end.

(** [metaAnnotations.parseInt]. *)
Definition parseInt (a : gmap string string) (name : string) : Z * option error :=
  match a !! name with
  | Some val =>
      match Utils.Atoi val with
      | None => (0, Some (NewInvalidAnnotationContent name val))
      | Some i => (i, None)
      end
  | None => (0, Some ErrMissingAnnotations)
  end.

(** [checkAnnotation]. *)
Definition checkAnnotation (name : string) (ing : option Object) : option error :=
  match ing with
  | None => Some ErrMissingAnnotations
  | Some i =>
      if Nat.eqb (size (GetAnnotations i)) 0 then Some ErrMissingAnnotations
      else if String.eqb name "" then Some ErrInvalidAnnotationName
      else None
  end.

(** [GetBoolAnnotation]. *)
Definition GetBoolAnnotation (name : string) (ing : option Object) : bool * option error :=
  match checkAnnotation name ing with
  | Some err => (false, Some err)
  | None => parseBool (match ing with Some i => GetAnnotations i | None => ∅ end) name
  end.

(** [GetStringAnnotation]. *)
Definition GetStringAnnotation (name : string) (ing : option Object)
  : string * option error :=
  match checkAnnotation name ing with
  | Some err => ("", Some err)
  | None => parseString (match ing with Some i => GetAnnotations i | None => ∅ end) name
  end.

(** [GetIntAnnotation]. *)
Definition GetIntAnnotation (name : string) (ing : option Object) : Z * option error :=
  match checkAnnotation name ing with
  | Some err => (0, Some err)
  | None => parseInt (match ing with Some i => GetAnnotations i | None => ∅ end) name
  end.

(** [GetIntNodeAnnotation]. *)
Definition GetIntNodeAnnotation (name : string) (node : option Object) : Z * option error :=
  match node with
  | None => (0, Some ErrMissingAnnotations)
  | Some n =>
      if Nat.eqb (size (GetAnnotations n)) 0 then (0, Some ErrMissingAnnotations)
      else if String.eqb name "" then (0, Some ErrInvalidAnnotationName)
      else parseInt (GetAnnotations n) name
  end.

End Errors.

(** Three distinct values standing in for the package's errors. *)
Definition missing : error := Errorf "missing annotations".
Definition invalid_name : error := Errorf "invalid annotation name".
Definition invalid_content (name val : string) : error :=
  Errorf ("invalid content of " +:+ name +:+ ": " +:+ val).

End Parser.

(** ** A certificate authority and a secret store that keep their word

    A second stand-in for the signer's collaborators.  The certificate
    text lists the expiry instant and the DNS names, joined by commas;
    the store keeps the bytes it is given and parses them on reading;
    the authority issues for the requested domains, for [lifetime] from
    now. *)
Module Vault.
Import Acme.

Definition pem (c : Certificate) : string :=
  strings_Join (Itoa (NotAfter c) :: DNSNames c) ",".

Definition decode (pemCrt pemKey : string) : TLSSecret :=
  match strings_Split pemCrt "," with
  | expiry :: names =>
      {| Crt := {| NotAfter := default 0 (Utils.Atoi expiry); DNSNames := names |};
         Key := pemKey |}
  | [] => {| Crt := {| NotAfter := 0; DNSNames := [] |}; Key := pemKey |}
  end.

Record World : Type := {
  now : Time;
  stored : gmap string (string * string);
  lifetime : Duration;
  ca_up : bool;
  disk_ok : bool;
}.

Definition vault : Collaborators := {|
  Env := World;
  Client := Account;
  time_Now w := now w;
  GetTLSSecretContent secretName w :=
    (fun bytes => decode bytes.1 bytes.2) <$> stored w !! secretName;
  SetTLSSecretContent secretName pemCrt pemKey w :=
    if disk_ok w
    then (None, {| now := now w;
                   stored := <[secretName := (pemCrt, pemKey)]> (stored w);
                   lifetime := lifetime w; ca_up := ca_up w; disk_ok := disk_ok w |})
    else (Some "disk full", w);
  Sign c domains w :=
    if ca_up w
    then (pem {| NotAfter := now w + lifetime w; DNSNames := domains |}, "key", None, w)
    else ("", "", Some "order refused", w);
  NewClient a w := (inl a, w);
|}.

(** A signer with a bound client and a 30 day window, after [n] issue
    attempts. *)
Definition counted (n : Z) : signer vault :=
  {| account := letsencrypt; client := Some (letsencrypt : Client vault);
     expiring := 30 * day; verifyCount := n |}.

(** An empty store at instant 0 and an authority issuing for the given
    number of days. *)
Definition empty_world (days : Z) : World :=
  {| now := 0; stored := ∅; lifetime := days * day; ca_up := true; disk_ok := true |}.

(** The same world after the certificate for [a.example.com] was
    stored under [site-tls]. *)
Definition issued_world (days : Z) : World :=
  {| now := 0;
     stored := {[ "site-tls" := (pem {| NotAfter := days * day;
                                        DNSNames := ["a.example.com"] |}, "key") ]};
     lifetime := days * day; ca_up := true; disk_ok := true |}.

(** The calls of one issue that succeeds. *)
Definition issue_events (days : Z) : list (Event vault) :=
  [EvNow; EvGetTLSSecretContent "site-tls"; EvLog InfoV2 MsgAuthorizing;
   EvSign (letsencrypt : Client vault) ["a.example.com"];
   EvSetTLSSecretContent "site-tls"
     (pem {| NotAfter := days * day; DNSNames := ["a.example.com"] |}) "key";
   EvLog Info MsgNewCertificateIssued].

End Vault.

(** ** Words for further properties of the signer *)
Module AcmeSpec.
Import Acme.

(** The tuple that switches signing off. *)
Definition disabled : Account :=
  {| Endpoint := ""; Emails := ""; TermsAgreed := false |}.

(** The tuple [AcmeAccount] compares with the stored account. *)
Definition tuple_of (endpoint emails : string) (termsAgreed : bool) : Account :=
  {| Endpoint := switch_endpoint endpoint; Emails := emails;
     TermsAgreed := termsAgreed |}.

Definition is_new_client {C : Collaborators} (e : Event C) : bool :=
  match e with EvNewClient _ => true | _ => false end.

Definition new_client_calls {C : Collaborators} (evs : list (Event C)) : nat :=
  length (List.filter is_new_client evs).

(** The signer left without its client. *)
Definition without_client {C : Collaborators} (st : State C) : State C :=
  {| self := {| account := account (self st); client := None;
                expiring := expiring (self st);
                verifyCount := verifyCount (self st) |};
     env := env st; trace := trace st |}.

End AcmeSpec.

(** * Properties *)

(** ** Loops *)
Section Loops.
Context {S A B : Type}.
Implicit Types (l : list A) (body : B -> A -> M S B).

Lemma for_range_inv (I : B -> Prop) l body :
  (forall acc x s acc' s', x ∈ l -> I acc -> body acc x s = Ok acc' s' -> I acc') ->
  forall acc s acc' s', I acc -> for_range l body acc s = Ok acc' s' -> I acc'.
Proof.
  induction l as [|x l IH]; intros Hbody acc s acc' s' HI Hrun; cbn in Hrun.
  - injection Hrun as <- _. exact HI.
  - unfold bind in Hrun. destruct (body acc x s) as [acc1 s1|] eqn:Hx; [|discriminate].
    eapply IH; [| |exact Hrun].
    + intros ? y ? ? ? Hy. apply Hbody. right. exact Hy.
    + eapply Hbody; [left | exact HI | exact Hx].
Qed.

Lemma for_range_total l body :
  (forall acc x s, x ∈ l -> exists acc' s', body acc x s = Ok acc' s') ->
  forall acc s, exists acc' s', for_range l body acc s = Ok acc' s'.
Proof.
  induction l as [|x l IH]; intros Hbody acc s; cbn.
  - eauto.
  - unfold bind. destruct (Hbody acc x s) as (acc1 & s1 & ->); [left|].
    apply IH. intros ? y ? Hy. apply Hbody. right. exact Hy.
Qed.

Lemma for_range_panics l body x :
  x ∈ l ->
  (forall acc s, exists why s', body acc x s = Panic why s') ->
  forall acc s, exists why s', for_range l body acc s = Panic why s'.
Proof.
  induction l as [|y l IH]; intros Hin Hx acc s; [inversion Hin|].
  cbn. unfold bind. destruct (body acc y s) as [acc1 s1|why s1] eqn:Hy; [|eauto].
  apply elem_of_cons in Hin as [->|Hin].
  - destruct (Hx acc s) as (? & ? & Hp). congruence.
  - apply IH; assumption.
Qed.

Lemma for_range_panic_kind (P : PanicKind -> Prop) l body :
  (forall acc x s why s', x ∈ l -> body acc x s = Panic why s' -> P why) ->
  forall acc s why s', for_range l body acc s = Panic why s' -> P why.
Proof.
  induction l as [|x l IH]; intros Hbody acc s why s' Hrun; cbn in Hrun; [discriminate|].
  unfold bind in Hrun. destruct (body acc x s) as [acc1 s1|why1 s1] eqn:Hx.
  - eapply IH; [|exact Hrun]. intros ? y ? ? ? Hy. apply Hbody. right. exact Hy.
  - injection Hrun as <- _. eapply Hbody; [left | exact Hx].
Qed.

End Loops.

(** A loop whose body appends [f x] to the first and [g x] to the second
    list collects the concatenation of all of them. *)
Lemma for_range_collect {S A E : Type} (l : list A)
    (body : list E * list E -> A -> M S (list E * list E)) (f g : A -> list E) :
  (forall acc x s acc' s', x ∈ l -> body acc x s = Ok acc' s' ->
     acc' = (acc.1 ++ f x, acc.2 ++ g x)) ->
  forall acc s acc' s', for_range l body acc s = Ok acc' s' ->
    acc' = (acc.1 ++ flat_map f l, acc.2 ++ flat_map g l).
Proof.
  induction l as [|x l IH]; intros Hbody acc s acc' s' Hrun; cbn in Hrun.
  - injection Hrun as <- _. cbn. rewrite !app_nil_r. destruct acc; reflexivity.
  - unfold bind in Hrun. destruct (body acc x s) as [acc1 s1|] eqn:Hx; [|discriminate].
    apply Hbody in Hx as ->; [|left].
    apply IH in Hrun as ->; [|intros ? y ? ? ? Hy; apply Hbody; right; exact Hy].
    cbn. rewrite <- !app_assoc. reflexivity.
Qed.

(** ** Sorting *)
Section Sorting.
Context {A : Type} (less : A -> A -> bool).

Lemma insert_perm (x : A) (l : list A) : Utils.insert less x l ≡ₚ x :: l.
Proof.
  induction l as [|y l IH]; cbn; [reflexivity|].
  destruct (less x y); [reflexivity|]. rewrite IH. apply Permutation_swap.
Qed.

Lemma sort_Slice_perm_from (l sorted : list A) :
  fold_left (fun sorted x => Utils.insert less x sorted) l sorted ≡ₚ sorted ++ l.
Proof.
  revert sorted. induction l as [|x l IH]; intros sorted; cbn.
  - rewrite app_nil_r. reflexivity.
  - rewrite IH, insert_perm. cbn. apply Permutation_middle.
Qed.

Lemma sort_Slice_perm (l : list A) : Utils.sort_Slice less l ≡ₚ l.
Proof. apply (sort_Slice_perm_from l []). Qed.

Variable R : A -> A -> Prop.
Hypothesis R_trans : forall a b c, R a b -> R b c -> R a c.
Hypothesis less_R : forall a b, less a b = true -> R a b.
Hypothesis not_less_R : forall a b, less a b = false -> R b a.

Lemma insert_sorted (x : A) (l : list A) :
  StronglySorted R l -> StronglySorted R (Utils.insert less x l).
Proof using R_trans less_R not_less_R.
  induction 1 as [|y l Hs IH Hy]; cbn.
  - repeat constructor.
  - destruct (less x y) eqn:Hxy.
    + constructor; [constructor; assumption|].
      constructor; [apply less_R; exact Hxy|].
      eapply Forall_impl; [exact Hy|]. intros z Hz. eapply R_trans; [|exact Hz].
      apply less_R. exact Hxy.
    + constructor; [exact IH|]. rewrite insert_perm.
      constructor; [apply not_less_R; exact Hxy | exact Hy].
Qed.

Lemma sort_Slice_sorted_from (l sorted : list A) :
  StronglySorted R sorted ->
  StronglySorted R (fold_left (fun sorted x => Utils.insert less x sorted) l sorted).
Proof using R_trans less_R not_less_R.
  revert sorted. induction l as [|x l IH]; intros sorted Hs; cbn; [exact Hs|].
  apply IH, insert_sorted, Hs.
Qed.

Lemma sort_Slice_sorted (l : list A) : StronglySorted R (Utils.sort_Slice less l).
Proof using R_trans less_R not_less_R. apply sort_Slice_sorted_from. constructor. Qed.

End Sorting.

Module UtilsProps.
Import Utils.

Lemma ltb_le (s1 s2 : string) : String.ltb s1 s2 = true -> String.le s1 s2.
Proof.
  unfold String.le, String.leb, String.ltb.
  destruct (String.compare s1 s2); cbn; (discriminate || exact (fun _ => I)).
Qed.

Lemma not_ltb_le (s1 s2 : string) : String.ltb s1 s2 = false -> String.le s2 s1.
Proof.
  unfold String.le, String.leb, String.ltb. rewrite (String.compare_antisym s1 s2).
  destruct (String.compare s2 s1); cbn; (discriminate || exact (fun _ => I)).
Qed.

Lemma sort_by_Target_sorted (l : list Endpoint) :
  sorted_by_Target (sort_Slice less_Target l).
Proof.
  apply sort_Slice_sorted.
  - intros a b c Hab Hbc. etrans; eassumption.
  - intros a b. apply ltb_le.
  - intros a b. apply not_ltb_le.
Qed.

Lemma sort_by_Target_perm (l : list Endpoint) : sort_Slice less_Target l ≡ₚ l.
Proof. apply sort_Slice_perm. Qed.


Section ResolverProps.
Variable cache : Cache.

Ltac step :=
  cbv beta iota zeta delta
    [bind ret panic deref gets modify emit klog cacheGetNodeByName
     cacheGetEndpoints cacheGetEndpointSlices cacheExternalNameLookup].

Lemma node_weight_range (nodeName : option string) :
  1 <= node_weight cache nodeName <= 127.
Proof.
  unfold node_weight, defaultServerWeight.
  repeat case_match; try lia.
Qed.

Lemma getNodeWeight_run (nodeName : option string) (tr : list Call) :
  exists tr', getNodeWeight cache nodeName tr = Ok (node_weight cache nodeName) tr'.
Proof.
  unfold getNodeWeight, node_weight. step.
  destruct nodeName as [name|]; [|eauto].
  destruct (GetNodeByName cache name) as [node|e]; cbn; [|eauto].
  destruct (api.Annotations node !! nodeWeightAnnotation) as [weightStr|]; [|eauto].
  destruct (Atoi weightStr) as [weight|]; [|eauto].
  destruct (weight <? 1) eqn:H1; destruct (weight >? 127) eqn:H2; cbn;
    destruct (1 <=? weight) eqn:H3; destruct (weight <=? 127) eqn:H4; cbn; eauto; lia.
Qed.

Lemma port_selected_proto (svcPort : api.ServicePort)
    (epPort : discoveryv1.EndpointPort) (proto : string) :
  discoveryv1.Protocol epPort = Some proto ->
  port_selected svcPort epPort
  = String.eqb (if negb (String.eqb (api.SvcPort_Protocol svcPort) "")
                then api.SvcPort_Protocol svcPort else api.ProtocolTCP) proto
    && (String.eqb (api.SvcPort_Name svcPort) ""
        || match discoveryv1.Name epPort with
           | Some epName => String.eqb (api.SvcPort_Name svcPort) epName
           | None => false
           end).
Proof.
  intros Hp. unfold port_selected. rewrite Hp. f_equal.
  - destruct (String.eqb_spec (api.SvcPort_Protocol svcPort) "") as [He|Hne]; cbn [negb].
    + rewrite (bool_decide_eq_true_2 _ He).
      destruct (String.eqb_spec api.ProtocolTCP proto) as [<-|Hn].
      * apply bool_decide_eq_true_2. reflexivity.
      * apply bool_decide_eq_false_2. congruence.
    + rewrite (bool_decide_eq_false_2 _ Hne).
      destruct (String.eqb_spec (api.SvcPort_Protocol svcPort) proto) as [<-|Hn].
      * apply bool_decide_eq_true_2. reflexivity.
      * apply bool_decide_eq_false_2. congruence.
  - f_equal.
    + destruct (String.eqb_spec (api.SvcPort_Name svcPort) "") as [He|Hne].
      * apply bool_decide_eq_true_2. exact He.
      * apply bool_decide_eq_false_2. exact Hne.
    + destruct (discoveryv1.Name epPort) as [epName|].
      * destruct (String.eqb_spec (api.SvcPort_Name svcPort) epName) as [<-|Hn].
        -- apply bool_decide_eq_true_2. reflexivity.
        -- apply bool_decide_eq_false_2. congruence.
      * apply bool_decide_eq_false_2. discriminate.
Qed.


Lemma createEndpointSlices_resolved (endpointSlices : list discoveryv1.EndpointSlice)
    (svcPort : api.ServicePort) (tr tr' : list Call)
    (ready notReady : list Endpoint) (err : option error) :
  createEndpointSlices cache endpointSlices svcPort tr = Ok (ready, notReady, err) tr' ->
  ready = resolved cache svcPort true endpointSlices
  /\ notReady = resolved cache svcPort false endpointSlices
  /\ err = None.
Proof.
  unfold createEndpointSlices. unfold bind at 1.
  destruct (for_range endpointSlices _ _ tr) as [[r n] s1|] eqn:Hloop; [|discriminate].
  intros [= <- <- <- <-].
  eapply (for_range_collect _ _
            (fun endpointSlice => flat_map _ (discoveryv1.Ports endpointSlice))
            (fun endpointSlice => flat_map _ (discoveryv1.Ports endpointSlice)))
    in Hloop.
  { cbn in Hloop. injection Hloop as -> ->. repeat split; reflexivity. }
  intros acc endpointSlice s acc' s' _ Hports.
  eapply (for_range_collect _ _
            (fun epPort => if port_selected svcPort epPort then flat_map _ (discoveryv1.Endpoints endpointSlice) else [])
            (fun epPort => if port_selected svcPort epPort then flat_map _ (discoveryv1.Endpoints endpointSlice) else []))
    in Hports; [exact Hports|].
  clear. intros acc epPort s acc' s' _ Hbody. revert Hbody. step.
  destruct (discoveryv1.Protocol epPort) as [proto|] eqn:Hproto; [|discriminate].
  rewrite (port_selected_proto svcPort epPort proto Hproto).
  destruct (String.eqb _ proto); cbn [negb andb].
  2:{ intros [= <- _]. rewrite !app_nil_r. destruct acc; reflexivity. }
  assert (Hendpoints : forall body,
    (body = fun (acc : Lists) (endpoint : discoveryv1.Endpoint) =>
       bind (match discoveryv1.Addresses endpoint with
             | a :: _ => ret a
             | [] => panic IndexOutOfRange
             end)
         (fun address => bind (deref (discoveryv1.Port epPort))
           (fun port => bind (getNodeWeight cache (discoveryv1.NodeName endpoint))
             (fun weight =>
                match discoveryv1.Ready (discoveryv1.Conditions endpoint) with
                | None | Some true =>
                    ret (acc.1 ++ [with_node (newEndpoint address port
                                                (discoveryv1.TargetRef endpoint))
                                             (discoveryv1.NodeName endpoint) weight],
                         acc.2)
                | Some false =>
                    ret (acc.1,
                         acc.2 ++ [with_node (newEndpoint address port
                                                (discoveryv1.TargetRef endpoint))
                                             (discoveryv1.NodeName endpoint) weight])
                end)))) ->
    for_range (discoveryv1.Endpoints endpointSlice) body acc s = Ok acc' s' ->
    acc' = (acc.1 ++ flat_map (fun endpoint =>
                        if Bool.eqb (is_ready endpoint) true
                        then [slice_target cache epPort endpoint] else [])
                       (discoveryv1.Endpoints endpointSlice),
            acc.2 ++ flat_map (fun endpoint =>
                        if Bool.eqb (is_ready endpoint) false
                        then [slice_target cache epPort endpoint] else [])
                       (discoveryv1.Endpoints endpointSlice))).
  { intros body -> Hrun. eapply for_range_collect in Hrun; [exact Hrun|].
    clear. intros acc endpoint s acc' s' _. step.
    destruct (discoveryv1.Addresses endpoint) as [|a rest] eqn:Ha; [discriminate|].
    destruct (discoveryv1.Port epPort) as [port|] eqn:Hp; [|discriminate].
    destruct (getNodeWeight_run (discoveryv1.NodeName endpoint) s) as [tr1 ->].
    unfold is_ready, slice_target. rewrite Ha, Hp.
    destruct (discoveryv1.Ready (discoveryv1.Conditions endpoint)) as [[]|]; cbn;
      intros [= <- _]; rewrite ?app_nil_r; reflexivity. }
  destruct (String.eqb (api.SvcPort_Name svcPort) ""); cbn [negb orb].
  - apply Hendpoints. reflexivity.
  - destruct (discoveryv1.Name epPort) as [epName|]; [|discriminate].
    destruct (String.eqb (api.SvcPort_Name svcPort) epName); cbn [negb].
    + apply Hendpoints. reflexivity.
    + intros [= <- _]. rewrite !app_nil_r. destruct acc; reflexivity.
Qed.


Lemma Forall_flat_map_all {A B : Type} (P : B -> Prop) (f : A -> list B) (l : list A) :
  (forall x, Forall P (f x)) -> Forall P (flat_map f l).
Proof.
  intros Hf. induction l as [|x l IH]; cbn; [constructor|].
  apply Forall_app. split; [apply Hf | exact IH].
Qed.

Lemma resolved_weight_ok (svcPort : api.ServicePort) (ready : bool)
    (endpointSlices : list discoveryv1.EndpointSlice) :
  Forall weight_ok (resolved cache svcPort ready endpointSlices).
Proof.
  unfold resolved. apply Forall_flat_map_all. intros endpointSlice.
  apply Forall_flat_map_all. intros epPort.
  destruct (port_selected svcPort epPort); [|constructor].
  apply Forall_flat_map_all. intros endpoint.
  destruct (Bool.eqb (is_ready endpoint) ready); [|constructor].
  constructor; [|constructor]. apply node_weight_range.
Qed.

(** The legacy loop nest never panics, and what it puts in the ready
    list carries a weight from the node lookup. *)
Lemma createEndpoints_total (endpoints : api.Endpoints) (svcPort : api.ServicePort)
    (tr : list Call) :
  exists ready notReady tr',
    createEndpoints cache endpoints svcPort tr = Ok (ready, notReady, None) tr'.
Proof.
  unfold createEndpoints. unfold bind at 1.
  match goal with
  | |- context [for_range ?l ?body ?acc0 tr] =>
      assert (Hb : forall acc x s, x ∈ l -> exists acc' s', body acc x s = Ok acc' s');
      [| destruct (for_range_total l body Hb acc0 tr) as ([r n] & s' & ->); cbn; eauto]
  end.
  intros acc subset s _. apply for_range_total. intros acc1 epPort s1 _.
  destruct (matchPort svcPort epPort); [|unfold ret; eauto]. cbn zeta. unfold bind at 1.
  match goal with
  | |- context [for_range ?l ?body acc1 s1] =>
      assert (Hb : forall acc x s, x ∈ l -> exists acc' s', body acc x s = Ok acc' s');
      [| destruct (for_range_total l body Hb acc1 s1) as (acc2 & s2 & ->);
         apply for_range_total; intros; unfold ret; eauto]
  end.
  intros acc3 addr s3 _. unfold bind.
  destruct (getNodeWeight_run (api.Addr_NodeName addr) s3) as [tr1 ->].
  unfold ret. eauto.
Qed.

Lemma createEndpoints_ready_weights (endpoints : api.Endpoints)
    (svcPort : api.ServicePort) (tr tr' : list Call)
    (ready notReady : list Endpoint) (err : option error) :
  createEndpoints cache endpoints svcPort tr = Ok (ready, notReady, err) tr' ->
  Forall weight_ok ready /\ err = None.
Proof.
  unfold createEndpoints. unfold bind at 1.
  destruct (for_range (api.Subsets endpoints) _ _ tr) as [[r n] s1|] eqn:Hloop;
    [|discriminate].
  intros [= <- <- <- <-]. split; [|reflexivity].
  change (Forall weight_ok (r, n).1).
  eapply (for_range_inv (fun acc : Lists => Forall weight_ok acc.1)) in Hloop;
    [exact Hloop | | constructor].
  clear. intros acc subset s acc' s' _ HI Hports.
  eapply (for_range_inv (fun acc : Lists => Forall weight_ok acc.1)) in Hports;
    [exact Hports | | exact HI].
  clear. intros acc epPort s acc' s' _ HI.
  destruct (matchPort svcPort epPort); [|intros [= <- _]; exact HI].
  cbn zeta. unfold bind at 1.
  destruct (for_range (api.Addresses subset) _ acc s) as [acc1 s1|] eqn:Haddr;
    [|discriminate].
  intros Hnot.
  eapply (for_range_inv (fun acc : Lists => Forall weight_ok acc.1)) in Hnot;
    [exact Hnot | |].
  - clear. intros acc addr s acc' s' _ HI [= <- _]. exact HI.
  - eapply (for_range_inv (fun acc : Lists => Forall weight_ok acc.1)) in Haddr;
      [exact Haddr | | exact HI].
    clear. intros acc addr s acc' s' _ HI. unfold bind.
    destruct (getNodeWeight_run (api.Addr_NodeName addr) s) as [tr1 ->].
    intros [= <- _]. cbn. apply Forall_app. split; [exact HI|].
    constructor; [|constructor]. apply node_weight_range.
Qed.


Lemma elem_of_resolved (svcPort : api.ServicePort) (ready : bool)
    (endpointSlices : list discoveryv1.EndpointSlice) (e : Endpoint) :
  e ∈ resolved cache svcPort ready endpointSlices
  <-> exists endpointSlice epPort endpoint,
        endpointSlice ∈ endpointSlices
        /\ epPort ∈ discoveryv1.Ports endpointSlice
        /\ port_selected svcPort epPort = true
        /\ endpoint ∈ discoveryv1.Endpoints endpointSlice
        /\ is_ready endpoint = ready
        /\ e = slice_target cache epPort endpoint.
Proof.
  unfold resolved. rewrite list_elem_of_In, in_flat_map. split.
  - intros (endpointSlice & Hs & He). apply in_flat_map in He as (epPort & Hp & He).
    destruct (port_selected svcPort epPort) eqn:Hsel; [|inversion He].
    apply in_flat_map in He as (endpoint & Hep & He).
    destruct (Bool.eqb (is_ready endpoint) ready) eqn:Hr; [|inversion He].
    apply Bool.eqb_prop in Hr. destruct He as [<-|[]].
    exists endpointSlice, epPort, endpoint. rewrite !list_elem_of_In. auto 10.
  - intros (endpointSlice & epPort & endpoint & Hs & Hp & Hsel & Hep & Hr & ->).
    apply list_elem_of_In in Hs. apply list_elem_of_In in Hp. apply list_elem_of_In in Hep.
    exists endpointSlice. split; [exact Hs|]. apply in_flat_map.
    exists epPort. split; [exact Hp|]. rewrite Hsel. apply in_flat_map.
    exists endpoint. split; [exact Hep|]. rewrite Hr, Bool.eqb_reflx. left. reflexivity.
Qed.

Lemma createEndpointSlices_total (endpointSlices : list discoveryv1.EndpointSlice)
    (svcPort : api.ServicePort) (tr : list Call) :
  ports_set endpointSlices -> addresses_set endpointSlices ->
  exists ready notReady tr',
    createEndpointSlices cache endpointSlices svcPort tr = Ok (ready, notReady, None) tr'.
Proof.
  intros Hports Haddrs. unfold createEndpointSlices. unfold bind at 1.
  match goal with
  | |- context [for_range ?l ?body ?acc0 tr] =>
      assert (Hb : forall acc x s, x ∈ l -> exists acc' s', body acc x s = Ok acc' s');
      [| destruct (for_range_total l body Hb acc0 tr) as ([r n] & s' & ->); cbn; eauto]
  end.
  intros acc endpointSlice s Hin.
  pose proof (proj1 (Forall_forall _ _) (proj1 (Forall_forall _ _) Hports _ Hin))
    as Hps.
  pose proof (proj1 (Forall_forall _ _) (proj1 (Forall_forall _ _) Haddrs _ Hin))
    as Has.
  clear Hports Haddrs. rename Hps into Hports. rename Has into Haddrs. cbn beta in *.
  apply for_range_total. intros acc1 epPort s1 Hp.
  destruct (Hports _ Hp) as ([name Hname] & [proto Hproto] & [port Hport]).
  step. rewrite Hproto, Hname, Hport.
  destruct (String.eqb _ proto); cbn [negb]; [|eauto].
  assert (Hend : forall body,
    (forall acc x s, x ∈ discoveryv1.Endpoints endpointSlice ->
       exists acc' s', body acc x s = Ok acc' s') ->
    exists acc' s', for_range (discoveryv1.Endpoints endpointSlice) body acc1 s1
                    = Ok acc' s')
    by (intros body Hbody; apply for_range_total; exact Hbody).
  assert (Hbody : forall (acc : Lists) endpoint s,
    endpoint ∈ discoveryv1.Endpoints endpointSlice ->
    exists acc' s',
      match
        match discoveryv1.Addresses endpoint with
        | [] => fun s0 => Panic IndexOutOfRange s0
        | a :: _ => fun s0 => Ok a s0
        end s
      with
      | Ok a s'0 =>
          match getNodeWeight cache (discoveryv1.NodeName endpoint) s'0 with
          | Ok a0 s'1 =>
              match discoveryv1.Ready (discoveryv1.Conditions endpoint) with
              | Some false =>
                  fun s0 => Ok (acc.1,
                     acc.2 ++ [with_node (newEndpoint a port (discoveryv1.TargetRef endpoint))
                                 (discoveryv1.NodeName endpoint) a0]) s0
              | _ =>
                  fun s0 => Ok (acc.1 ++
                      [with_node (newEndpoint a port (discoveryv1.TargetRef endpoint))
                         (discoveryv1.NodeName endpoint) a0], acc.2) s0
              end s'1
          | Panic why s'1 => Panic why s'1
          end
      | Panic why s'0 => Panic why s'0
      end = Ok acc' s').
  { intros acc2 endpoint s2 Hep. specialize (Haddrs _ Hep).
    destruct (discoveryv1.Addresses endpoint) as [|a rest]; [contradiction|].
    destruct (getNodeWeight_run (discoveryv1.NodeName endpoint) s2) as [tr1 ->].
    destruct (discoveryv1.Ready (discoveryv1.Conditions endpoint)) as [[]|]; eauto. }
  destruct (String.eqb (api.SvcPort_Name svcPort) ""); cbn [negb].
  - apply Hend. exact Hbody.
  - destruct (String.eqb (api.SvcPort_Name svcPort) name); cbn [negb]; [|eauto].
    apply Hend. exact Hbody.
Qed.


Lemma createEndpointSlices_panics (endpointSlices : list discoveryv1.EndpointSlice)
    (svcPort : api.ServicePort) (tr : list Call)
    (endpointSlice : discoveryv1.EndpointSlice) (epPort : discoveryv1.EndpointPort)
    (endpoint : discoveryv1.Endpoint) :
  endpointSlice ∈ endpointSlices ->
  epPort ∈ discoveryv1.Ports endpointSlice ->
  port_selected svcPort epPort = true ->
  endpoint ∈ discoveryv1.Endpoints endpointSlice ->
  discoveryv1.Addresses endpoint = [] ->
  exists why tr', createEndpointSlices cache endpointSlices svcPort tr = Panic why tr'.
Proof.
  intros Hs Hp Hsel Hep Haddr. unfold createEndpointSlices. unfold bind at 1.
  match goal with
  | |- context [for_range ?l ?body ?acc0 tr] =>
      destruct (for_range_panics l body endpointSlice Hs) with (acc := acc0) (s := tr)
        as (why & tr' & ->); [|eauto]
  end.
  intros acc s. apply (for_range_panics _ _ epPort Hp). clear acc s. intros acc s.
  step. destruct (discoveryv1.Protocol epPort) as [proto|] eqn:Hproto; [|eauto].
  rewrite (port_selected_proto svcPort epPort proto Hproto) in Hsel.
  apply andb_true_iff in Hsel as [-> Hname]. cbn [negb].
  assert (Hend : forall body,
    (forall acc s, exists why s', body acc endpoint s = Panic why s') ->
    exists why s', for_range (discoveryv1.Endpoints endpointSlice) body acc s
                   = Panic why s')
    by (intros body Hbody; apply (for_range_panics _ _ endpoint Hep Hbody)).
  destruct (String.eqb (api.SvcPort_Name svcPort) ""); cbn [negb orb] in *.
  - apply Hend. intros acc1 s1. rewrite Haddr. eauto.
  - destruct (discoveryv1.Name epPort) as [epName|]; [|discriminate].
    rewrite Hname. cbn [negb]. apply Hend. intros acc1 s1. rewrite Haddr. eauto.
Qed.

Lemma createEndpointSlices_panic_kind (endpointSlices : list discoveryv1.EndpointSlice)
    (svcPort : api.ServicePort) (tr tr' : list Call) (why : PanicKind) :
  ports_set endpointSlices ->
  createEndpointSlices cache endpointSlices svcPort tr = Panic why tr' ->
  why = IndexOutOfRange.
Proof.
  intros Hports. unfold createEndpointSlices. unfold bind at 1.
  destruct (for_range endpointSlices _ _ tr) as [[r n] s1|why1 s1] eqn:Hloop;
    [discriminate|].
  intros [= <- _].
  eapply (for_range_panic_kind (fun why => why = IndexOutOfRange)) in Hloop;
    [exact Hloop|].
  intros acc endpointSlice s why s' Hin Hrun.
  pose proof (proj1 (Forall_forall _ _) (proj1 (Forall_forall _ _) Hports _ Hin))
    as Hps. cbn beta in Hps.
  eapply (for_range_panic_kind (fun why => why = IndexOutOfRange)) in Hrun;
    [exact Hrun|].
  clear Hrun. intros acc1 epPort s2 why3 s2' Hp.
  destruct (Hps _ Hp) as ([name Hname] & [proto Hproto] & [port Hport]).
  step. rewrite Hproto, Hname, Hport.
  assert (Hend : forall body,
    (forall acc x s why s', body acc x s = Panic why s' -> why = IndexOutOfRange) ->
    for_range (discoveryv1.Endpoints endpointSlice) body acc1 s2 = Panic why3 s2' ->
    why3 = IndexOutOfRange).
  { intros body Hbody Hr.
    eapply (for_range_panic_kind (fun why => why = IndexOutOfRange)) in Hr; [exact Hr|].
    intros ? ? ? ? ? _. apply Hbody. }
  assert (Hbody : forall (acc : Lists) endpoint s why s',
      match
        match discoveryv1.Addresses endpoint with
        | [] => fun s0 => Panic IndexOutOfRange s0
        | a :: _ => fun s0 => Ok a s0
        end s
      with
      | Ok a s'0 =>
          match getNodeWeight cache (discoveryv1.NodeName endpoint) s'0 with
          | Ok a0 s'1 =>
              match discoveryv1.Ready (discoveryv1.Conditions endpoint) with
              | Some false =>
                  fun s0 => Ok (acc.1,
                     acc.2 ++ [with_node (newEndpoint a port (discoveryv1.TargetRef endpoint))
                                 (discoveryv1.NodeName endpoint) a0]) s0
              | _ =>
                  fun s0 => Ok (acc.1 ++
                      [with_node (newEndpoint a port (discoveryv1.TargetRef endpoint))
                         (discoveryv1.NodeName endpoint) a0], acc.2) s0
              end s'1
          | Panic why s'1 => Panic why s'1
          end
      | Panic why s'0 => Panic why s'0
      end = Panic why s' -> why = IndexOutOfRange).
  { intros acc2 endpoint s3 why2 s3'.
    destruct (discoveryv1.Addresses endpoint) as [|a rest]; [congruence|].
    destruct (getNodeWeight_run (discoveryv1.NodeName endpoint) s3) as [tr1 ->].
    destruct (discoveryv1.Ready (discoveryv1.Conditions endpoint)) as [[]|]; discriminate. }
  destruct (String.eqb _ proto); cbn [negb]; [|discriminate].
  destruct (String.eqb (api.SvcPort_Name svcPort) ""); cbn [negb].
  - apply Hend. exact Hbody.
  - destruct (String.eqb (api.SvcPort_Name svcPort) name); cbn [negb]; [|discriminate].
    apply Hend. exact Hbody.
Qed.


Lemma is_external (svc : api.Service) :
  String.eqb (api.Spec_Type svc) api.ServiceTypeExternalName = true
  <-> api.Spec_Type svc = api.ServiceTypeExternalName.
Proof. apply String.eqb_eq. Qed.

Lemma not_external (svc : api.Service) :
  api.Spec_Type svc <> api.ServiceTypeExternalName ->
  String.eqb (api.Spec_Type svc) api.ServiceTypeExternalName = false.
Proof. intros H. apply String.eqb_neq. exact H. Qed.

(** What holds of the returned lists on every path: both are sorted
    ascending by [Target]; for a service that is not externally named
    every endpoint of the ready list has a weight in 1..127, and on the
    slice-based path so has every endpoint of the notReady list; the
    endpoints of an externally named service are left with the weight 0.
    The legacy and the external-name paths always return. *)
Lemma CreateEndpoints_sorted_and_weighted (svc : api.Service)
    (svcPort : api.ServicePort) (useEndpointSlices : bool) (tr : list Call) :
  (forall ready notReady err tr',
     CreateEndpoints cache svc svcPort useEndpointSlices tr
     = Ok (ready, notReady, err) tr' ->
     sorted_by_Target ready /\ sorted_by_Target notReady
     /\ (api.Spec_Type svc <> api.ServiceTypeExternalName -> Forall weight_ok ready)
     /\ (api.Spec_Type svc <> api.ServiceTypeExternalName ->
         useEndpointSlices = true -> Forall weight_ok notReady)
     /\ (api.Spec_Type svc = api.ServiceTypeExternalName ->
         Forall (fun e => Weight e = 0) ready))
  /\ (useEndpointSlices = false
      \/ api.Spec_Type svc = api.ServiceTypeExternalName ->
      exists ready notReady err tr',
        CreateEndpoints cache svc svcPort useEndpointSlices tr
        = Ok (ready, notReady, err) tr').
Proof.
  split.
  - intros ready notReady err tr'. unfold CreateEndpoints, createEndpointsExternalName.
    destruct (String.eqb_spec (api.Spec_Type svc) api.ServiceTypeExternalName) as [He|Hne].
    + step. destruct (api.SvcPort_Port svcPort <=? 0).
      * intros [= <- <- _ _]. repeat split; try constructor; contradiction.
      * destruct (ExternalNameLookup cache _) as [addr|e]; cbn;
          intros [= <- <- _ _];
          (split; [first [apply sort_by_Target_sorted | constructor]|]);
          (split; [constructor|]); (split; [contradiction|]);
          (split; [contradiction|]); intros _; [|constructor].
        rewrite sort_by_Target_perm. apply Forall_map, Forall_true. reflexivity.
    + destruct useEndpointSlices.
      * step. destruct (GetEndpointSlices cache svc) as [slices|e]; cbn.
        2:{ intros [= <- <- _ _]. repeat split; try constructor; contradiction. }
        destruct (createEndpointSlices cache slices svcPort _)
          as [[[r n] e] s1|] eqn:Hrun; [|discriminate].
        intros [= <- <- _ _].
        apply createEndpointSlices_resolved in Hrun as (-> & -> & _).
        repeat split; try apply sort_by_Target_sorted; try contradiction; intros;
          rewrite sort_by_Target_perm; apply resolved_weight_ok.
      * step. destruct (GetEndpoints cache svc) as [endpoints|e]; cbn.
        2:{ intros [= <- <- _ _]. repeat split; try constructor;
            discriminate || contradiction. }
        destruct (createEndpoints cache endpoints svcPort _)
          as [[[r n] e] s1|] eqn:Hrun; [|discriminate].
        intros [= <- <- _ _]. apply createEndpoints_ready_weights in Hrun as [Hw _].
        repeat split; try apply sort_by_Target_sorted;
          [|discriminate|contradiction].
        intros _. rewrite sort_by_Target_perm. exact Hw.
  - intros Hpath. unfold CreateEndpoints, createEndpointsExternalName.
    destruct (String.eqb_spec (api.Spec_Type svc) api.ServiceTypeExternalName) as [He|Hne].
    + step. destruct (api.SvcPort_Port svcPort <=? 0); [eauto|].
      destruct (ExternalNameLookup cache _) as [addr|e]; cbn; eauto.
    + destruct Hpath as [->|He]; [|contradiction].
      step. destruct (GetEndpoints cache svc) as [endpoints|e]; cbn; [|eauto].
      destruct (createEndpoints_total endpoints svcPort
                  (tr ++ [CallGetEndpoints svc])) as (r & n & s1 & ->).
      eauto.
Qed.

(** C7: slice-based resolution takes endpoints only from the slice
    ports whose protocol is the service port's (TCP when it declares
    none) and whose name is the service port's when it has one; an
    endpoint goes to the ready list when its Ready condition is absent
    or true and to the notReady list when it is present and false.  On
    slices with their port fields and addresses set it returns. *)
Theorem createEndpointSlices_selects_and_splits
    (endpointSlices : list discoveryv1.EndpointSlice) (svcPort : api.ServicePort)
    (tr : list Call) :
  (forall ready notReady err tr',
     createEndpointSlices cache endpointSlices svcPort tr
     = Ok (ready, notReady, err) tr' ->
     ready = resolved cache svcPort true endpointSlices
     /\ notReady = resolved cache svcPort false endpointSlices
     /\ err = None
     /\ forall (e : Endpoint) (flag : bool),
          e ∈ (if flag then ready else notReady)
          <-> exists endpointSlice epPort endpoint,
                endpointSlice ∈ endpointSlices
                /\ epPort ∈ discoveryv1.Ports endpointSlice
                /\ port_selected svcPort epPort = true
                /\ endpoint ∈ discoveryv1.Endpoints endpointSlice
                /\ is_ready endpoint = flag
                /\ e = slice_target cache epPort endpoint)
  /\ (ports_set endpointSlices -> addresses_set endpointSlices ->
      exists tr',
        createEndpointSlices cache endpointSlices svcPort tr
        = Ok (resolved cache svcPort true endpointSlices,
              resolved cache svcPort false endpointSlices, None) tr').
Proof.
  split.
  - intros ready notReady err tr' Hrun.
    apply createEndpointSlices_resolved in Hrun as (-> & -> & ->).
    repeat split; try (destruct flag; apply elem_of_resolved).
  - intros Hports Haddrs.
    destruct (createEndpointSlices_total endpointSlices svcPort tr Hports Haddrs)
      as (r & n & tr' & Hrun).
    pose proof Hrun as Heq. apply createEndpointSlices_resolved in Heq as (<- & <- & _).
    eauto.
Qed.

(** C8: for an externally named service [CreateEndpoints] answers a
    declared port that is not positive with the invalid-port error and
    without any lookup; otherwise it returns one ready endpoint for each
    address the DNS lookup yields: the addresses of the ready list are
    the looked-up ones, each endpoint has the declared port, the target
    [ip:port], no target reference and no node, and the list is sorted;
    the notReady list is empty in every case. *)
Theorem CreateEndpoints_external_name (svc : api.Service) (svcPort : api.ServicePort)
    (useEndpointSlices : bool) (tr : list Call) :
  api.Spec_Type svc = api.ServiceTypeExternalName ->
  (api.SvcPort_Port svcPort <= 0 ->
   CreateEndpoints cache svc svcPort useEndpointSlices tr
   = Ok ([], [], Some (Errorf ("invalid port number: "
                               +:+ Itoa (api.SvcPort_Port svcPort)))) tr)
  /\ (0 < api.SvcPort_Port svcPort ->
      forall addr,
        ExternalNameLookup cache (api.Spec_ExternalName svc) = inl addr ->
        exists ready,
          CreateEndpoints cache svc svcPort useEndpointSlices tr
          = Ok (ready, [], None)
               (tr ++ [CallExternalNameLookup (api.Spec_ExternalName svc)])
          /\ ready ≡ₚ map (fun ip => newEndpoint ip (api.SvcPort_Port svcPort) None) addr
          /\ length ready = length addr
          /\ Forall (fun e => Port e = api.SvcPort_Port svcPort) ready
          /\ map IP ready ≡ₚ addr
          /\ Forall (fun e => Target e = IP e +:+ ":" +:+ Itoa (api.SvcPort_Port svcPort)
                              /\ TargetRef e = "" /\ NodeName e = None)
                    ready
          /\ sorted_by_Target ready)
  /\ (forall ready notReady err tr',
        CreateEndpoints cache svc svcPort useEndpointSlices tr
        = Ok (ready, notReady, err) tr' ->
        notReady = []).
Proof.
  intros He. apply is_external in He.
  unfold CreateEndpoints, createEndpointsExternalName. rewrite He. step.
  split; [|split].
  - intros Hport. apply Z.leb_le in Hport. rewrite Hport. reflexivity.
  - intros Hport addr Hdns. apply Z.leb_gt in Hport. rewrite Hport, Hdns. cbn.
    eexists. split; [reflexivity|].
    split; [apply sort_by_Target_perm|].
    split; [rewrite sort_by_Target_perm; apply length_map|].
    split; [rewrite sort_by_Target_perm; apply Forall_map, Forall_true; reflexivity|].
    split.
    { rewrite sort_by_Target_perm, map_map. cbn. rewrite map_id. reflexivity. }
    split; [|apply sort_by_Target_sorted].
    rewrite sort_by_Target_perm. apply Forall_map, Forall_true. intros ip. cbn. auto.
  - intros ready notReady err tr'.
    destruct (api.SvcPort_Port svcPort <=? 0); [intros [= _ <- _ _]; reflexivity|].
    destruct (ExternalNameLookup cache _) as [addr|e]; cbn;
      intros [= _ <- _ _]; reflexivity.
Qed.

(** C9, as the code has it: a failed DNS lookup, endpoints lookup or
    endpoint-slice lookup comes back from [CreateEndpoints] as the very
    error of the collaborator; a failed node lookup does not: the
    endpoint gets the default weight and resolution goes on, so that
    the legacy path returns a nil error whatever the node lookups do. *)
Theorem lookup_failures_propagated_except_node (svc : api.Service)
    (svcPort : api.ServicePort) (tr : list Call) (e : string) :
  (api.Spec_Type svc = api.ServiceTypeExternalName ->
   0 < api.SvcPort_Port svcPort ->
   ExternalNameLookup cache (api.Spec_ExternalName svc) = inr e ->
   forall useEndpointSlices,
     CreateEndpoints cache svc svcPort useEndpointSlices tr
     = Ok ([], [], Some (Collab e))
          (tr ++ [CallExternalNameLookup (api.Spec_ExternalName svc)]))
  /\ (api.Spec_Type svc <> api.ServiceTypeExternalName ->
      GetEndpointSlices cache svc = inr e ->
      CreateEndpoints cache svc svcPort true tr
      = Ok ([], [], Some (Collab e)) (tr ++ [CallGetEndpointSlices svc]))
  /\ (api.Spec_Type svc <> api.ServiceTypeExternalName ->
      GetEndpoints cache svc = inr e ->
      CreateEndpoints cache svc svcPort false tr
      = Ok ([], [], Some (Collab e)) (tr ++ [CallGetEndpoints svc]))
  /\ (forall nodeName,
        GetNodeByName cache nodeName = inr e ->
        getNodeWeight cache (Some nodeName) tr
        = Ok defaultServerWeight
             (tr ++ [CallLog V4SearchingWeight; CallGetNodeByName nodeName;
                     CallLog WarnUnableToGetWeight]))
  /\ (api.Spec_Type svc <> api.ServiceTypeExternalName ->
      forall endpoints, GetEndpoints cache svc = inl endpoints ->
      exists ready notReady tr',
        CreateEndpoints cache svc svcPort false tr = Ok (ready, notReady, None) tr').
Proof.
  unfold CreateEndpoints, createEndpointsExternalName.
  split; [|split; [|split; [|split]]].
  - intros He Hport Hdns use. apply is_external in He. apply Z.leb_gt in Hport.
    rewrite He. step. rewrite Hport, Hdns. reflexivity.
  - intros Hne Hget. rewrite (not_external svc Hne). step. rewrite Hget. reflexivity.
  - intros Hne Hget. rewrite (not_external svc Hne). step. rewrite Hget. reflexivity.
  - intros nodeName Hnode. unfold getNodeWeight. step. rewrite Hnode. cbn.
    rewrite <- !app_assoc. reflexivity.
  - intros Hne endpoints Hget. rewrite (not_external svc Hne). step. rewrite Hget. cbn.
    destruct (createEndpoints_total endpoints svcPort
                (tr ++ [CallGetEndpoints svc])) as (r & n & s1 & ->).
    eauto.
Qed.

(** C10: when a slice has a port of interest and an endpoint entry
    whose address list is empty, slice-based resolution does not return:
    it panics, and on slices whose port fields are all set the panic is
    the out-of-range read of the first address. *)
Theorem createEndpointSlices_empty_addresses_panics
    (endpointSlices : list discoveryv1.EndpointSlice) (svcPort : api.ServicePort)
    (tr : list Call) (endpointSlice : discoveryv1.EndpointSlice)
    (epPort : discoveryv1.EndpointPort) (endpoint : discoveryv1.Endpoint) :
  endpointSlice ∈ endpointSlices ->
  epPort ∈ discoveryv1.Ports endpointSlice ->
  port_selected svcPort epPort = true ->
  endpoint ∈ discoveryv1.Endpoints endpointSlice ->
  discoveryv1.Addresses endpoint = [] ->
  exists why tr',
    createEndpointSlices cache endpointSlices svcPort tr = Panic why tr'
    /\ (ports_set endpointSlices -> why = IndexOutOfRange).
Proof.
  intros Hs Hp Hsel Hep Haddr.
  destruct (createEndpointSlices_panics endpointSlices svcPort tr endpointSlice epPort
              endpoint Hs Hp Hsel Hep Haddr) as (why & tr' & Hrun).
  exists why, tr'. split; [exact Hrun|]. intros Hports.
  exact (createEndpointSlices_panic_kind endpointSlices svcPort tr tr' why Hports Hrun).
Qed.

End ResolverProps.

(** *** The theorems at scripted lookups *)

(** C2: the weight range fails on the code.  The endpoints of an
    externally named service and the legacy notReady endpoints come from
    [newEndpoint] alone and keep the weight 0, although the code's own
    weight for an endpoint without a node is the default 50 and the
    slice-based path weights its notReady endpoints. *)
Theorem CreateEndpoints_leaves_weight_unset :
  CreateEndpoints dns_cache external_svc http_port false []
  = Ok ([ {| IP := "192.0.2.3"; Port := 8080; Target := "192.0.2.3:8080";
             TargetRef := ""; NodeName := None; Weight := 0 |};
          {| IP := "192.0.2.7"; Port := 8080; Target := "192.0.2.7:8080";
             TargetRef := ""; NodeName := None; Weight := 0 |} ],
        [], None)
       [CallExternalNameLookup "upstream.example.com"]
  /\ CreateEndpoints legacy_cache cluster_svc http_port false []
     = Ok ([ {| IP := "10.0.0.1"; Port := 8080; Target := "10.0.0.1:8080";
                TargetRef := ""; NodeName := Some "node-1"; Weight := 50 |} ],
           [ {| IP := "10.0.0.2"; Port := 8080; Target := "10.0.0.2:8080";
                TargetRef := ""; NodeName := None; Weight := 0 |} ],
           None)
          [CallGetEndpoints cluster_svc; CallLog V4SearchingWeight;
           CallGetNodeByName "node-1"; CallLog WarnUnableToGetWeight]
  /\ ~ weight_ok {| IP := "192.0.2.3"; Port := 8080; Target := "192.0.2.3:8080";
                    TargetRef := ""; NodeName := None; Weight := 0 |}
  /\ ~ weight_ok {| IP := "10.0.0.2"; Port := 8080; Target := "10.0.0.2:8080";
                    TargetRef := ""; NodeName := None; Weight := 0 |}
  /\ getNodeWeight dns_cache None [] = Ok defaultServerWeight [CallLog WarnNoNodeName]
  /\ CreateEndpoints (slices_cache two_endpoints) cluster_svc http_port true []
     = Ok ([ {| IP := "10.0.0.2"; Port := 8080; Target := "10.0.0.2:8080";
                TargetRef := ""; NodeName := None; Weight := 50 |} ],
           [ {| IP := "10.0.0.1"; Port := 8080; Target := "10.0.0.1:8080";
                TargetRef := ""; NodeName := None; Weight := 50 |} ],
           None)
          [CallGetEndpointSlices cluster_svc; CallLog WarnNoNodeName;
           CallLog WarnNoNodeName].
Proof.
  split; [reflexivity|]. split; [reflexivity|].
  split; [unfold weight_ok; cbn; lia|]. split; [unfold weight_ok; cbn; lia|].
  split; reflexivity.
Qed.

(** Scenario D. *)
Lemma createEndpointSlices_selects_and_splits_witness :
  ports_set two_endpoints /\ addresses_set two_endpoints
  /\ exists tr',
      createEndpointSlices (slices_cache two_endpoints) two_endpoints http_port []
      = Ok ([with_node (newEndpoint "10.0.0.2" 8080 None) None 50],
            [with_node (newEndpoint "10.0.0.1" 8080 None) None 50], None) tr'.
Proof.
  assert (Hp : ports_set two_endpoints).
  { repeat constructor; eexists; reflexivity. }
  assert (Ha : addresses_set two_endpoints).
  { repeat constructor; discriminate. }
  split; [exact Hp|]. split; [exact Ha|].
  exact (proj2 (createEndpointSlices_selects_and_splits (slices_cache two_endpoints)
                  two_endpoints http_port []) Hp Ha).
Defined.

(** Two addresses come back from the lookup in descending order; the
    ready list holds exactly these two, sorted, with port and target. *)
Lemma CreateEndpoints_external_name_witness :
  api.Spec_Type external_svc = api.ServiceTypeExternalName
  /\ 0 < api.SvcPort_Port http_port
  /\ ExternalNameLookup dns_cache (api.Spec_ExternalName external_svc)
     = inl ["192.0.2.7"; "192.0.2.3"]
  /\ CreateEndpoints dns_cache external_svc http_port true []
     = Ok ([ {| IP := "192.0.2.3"; Port := 8080; Target := "192.0.2.3:8080";
                TargetRef := ""; NodeName := None; Weight := 0 |};
             {| IP := "192.0.2.7"; Port := 8080; Target := "192.0.2.7:8080";
                TargetRef := ""; NodeName := None; Weight := 0 |} ],
           [], None)
          [CallExternalNameLookup "upstream.example.com"]
  /\ exists ready,
      CreateEndpoints dns_cache external_svc http_port true []
      = Ok (ready, [], None) [CallExternalNameLookup "upstream.example.com"]
      /\ ready ≡ₚ map (fun ip => newEndpoint ip 8080 None) ["192.0.2.7"; "192.0.2.3"]
      /\ length ready = 2%nat
      /\ Forall (fun e => Port e = 8080) ready
      /\ map IP ready ≡ₚ ["192.0.2.7"; "192.0.2.3"]
      /\ Forall (fun e => Target e = IP e +:+ ":" +:+ Itoa 8080
                          /\ TargetRef e = "" /\ NodeName e = None)
                ready
      /\ sorted_by_Target ready.
Proof.
  split; [reflexivity|]. split; [reflexivity|]. split; [reflexivity|].
  split; [reflexivity|].
  apply (proj1 (proj2 (CreateEndpoints_external_name dns_cache external_svc http_port
                         true [] eq_refl)) eq_refl ["192.0.2.7"; "192.0.2.3"] eq_refl).
Defined.

(** C9 as stated fails for the node lookup: the lookup of the node of
    the ready address fails, and [CreateEndpoints] returns the endpoint
    with the default weight and a nil error. *)
Lemma node_lookup_failure_not_propagated :
  GetNodeByName legacy_cache "node-1" = inr "node not found"
  /\ CreateEndpoints legacy_cache cluster_svc http_port false []
     = Ok ([with_node (newEndpoint "10.0.0.1" 8080 None) (Some "node-1") 50],
           [newEndpoint "10.0.0.2" 8080 None], None)
          [CallGetEndpoints cluster_svc; CallLog V4SearchingWeight;
           CallGetNodeByName "node-1"; CallLog WarnUnableToGetWeight].
Proof. split; reflexivity. Qed.

Lemma lookup_failures_propagated_except_node_witness :
  api.Spec_Type external_svc = api.ServiceTypeExternalName
  /\ 0 < api.SvcPort_Port http_port
  /\ ExternalNameLookup (slices_cache []) (api.Spec_ExternalName external_svc)
     = inr "no such host"
  /\ CreateEndpoints (slices_cache []) external_svc http_port true []
     = Ok ([], [], Some (Collab "no such host"))
          [CallExternalNameLookup "upstream.example.com"].
Proof.
  split; [reflexivity|]. split; [reflexivity|]. split; [reflexivity|].
  apply (proj1 (lookup_failures_propagated_except_node (slices_cache []) external_svc
                  http_port [] "no such host") eq_refl eq_refl eq_refl true).
Defined.

Lemma createEndpointSlices_empty_addresses_panics_witness :
  port_selected http_port slice_port = true
  /\ discoveryv1.Addresses (slice_endpoint [] (Some true)) = []
  /\ exists why tr',
      createEndpointSlices (slices_cache no_address) no_address http_port []
      = Panic why tr'
      /\ (ports_set no_address -> why = IndexOutOfRange).
Proof.
  split; [reflexivity|]. split; [reflexivity|].
  apply (createEndpointSlices_empty_addresses_panics (slices_cache no_address)
           no_address http_port []
           {| discoveryv1.Endpoints := [slice_endpoint [] (Some true)];
              discoveryv1.Ports := [slice_port] |}
           slice_port (slice_endpoint [] (Some true)));
    try reflexivity; constructor.
Defined.

End UtilsProps.

(** ** Splitting and joining *)
Section SplitJoin.
Variable sep : ascii.






End SplitJoin.

(** ** The signer *)
Module AcmeProps.
Import Acme.

Lemma match_found_acc (domain : string) (dnsnames : list string) (found : bool) :
  fold_left (fun found dns => if String.eqb domain dns then true else found)
            dnsnames found = true
  <-> found = true \/ domain ∈ dnsnames.
Proof.
  revert found. induction dnsnames as [|dns rest IH]; intros found; simpl.
  - split; [auto | intros [H|H]; [exact H | inversion H]].
  - rewrite IH. destruct (String.eqb_spec domain dns) as [->|Hne].
    + split; [intros _; right; left | auto].
    + split.
      * intros [H|H]; [auto | right; right; exact H].
      * intros [H|H]; [auto|]. apply elem_of_cons in H as [H|H]; [contradiction | auto].
Qed.

Lemma match_found_spec (domain : string) (dnsnames : list string) :
  match_found domain dnsnames = true <-> domain ∈ dnsnames.
Proof.
  unfold match_found. rewrite match_found_acc. split; [intros [H|H]; [discriminate | exact H] | auto].
Qed.

Lemma match_all (domains dnsnames : list string) :
  match_ domains dnsnames = true <-> (forall d, d ∈ domains -> d ∈ dnsnames).
Proof.
  induction domains as [|domain rest IH]; simpl.
  - split; [intros _ d H; inversion H | auto].
  - destruct (match_found domain dnsnames) eqn:Hf; simpl.
    + rewrite IH. apply match_found_spec in Hf. split.
      * intros H d Hd. apply elem_of_cons in Hd as [->|Hd]; auto.
      * intros H d Hd. apply H. right. exact Hd.
    + split; [discriminate|]. intros H.
      assert (Hin : domain ∈ dnsnames) by (apply H; left).
      apply match_found_spec in Hin. congruence.
Qed.

(** C3: [match] is true exactly when every requested domain occurs
    among the certificate's DNS names, by string equality; so a
    certificate for [D2] satisfies any request [D1] included in it, a
    request with a domain outside [D2] fails, the empty request matches
    any certificate, and the order of either list does not matter. *)
Theorem match_iff_every_domain_covered :
  (forall domains dnsnames : list string,
     match_ domains dnsnames = true <-> (forall d, d ∈ domains -> d ∈ dnsnames))
  /\ (forall D1 D2 : list string, D1 ⊆ D2 -> match_ D1 D2 = true)
  /\ (forall (D1 D2 : list string) (d : string),
        d ∈ D1 -> d ∉ D2 -> match_ D1 D2 = false)
  /\ (forall dnsnames : list string, match_ [] dnsnames = true)
  /\ (forall D1 D1' D2 D2' : list string,
        D1 ≡ₚ D1' -> D2 ≡ₚ D2' -> match_ D1 D2 = match_ D1' D2').
Proof.
  split; [exact match_all|]. split; [|split; [|split]].
  - intros D1 D2 Hsub. apply match_all. exact Hsub.
  - intros D1 D2 d Hin Hout. apply not_true_is_false. intros H.
    apply Hout. exact (proj1 (match_all D1 D2) H d Hin).
  - reflexivity.
  - intros D1 D1' D2 D2' H1 H2.
    apply eq_true_iff_eq. rewrite !match_all. split; intros H d Hd.
    + rewrite <- H2. apply H. rewrite H1. exact Hd.
    + rewrite H2. apply H. rewrite <- H1. exact Hd.
Qed.


Section SignerProps.
Variable C : Collaborators.

Ltac run :=
  cbv beta iota zeta delta
    [verify Notify AcmeAccount AcmeConfig bind ret gets modify panic deref logger
     emit set_self callNow cacheGetTLSSecretContent cacheSetTLSSecretContent
     clientSign callNewClient call self env trace account client expiring
     verifyCount].

Lemma trigger_iff_due (s : signer C) (w : Env C) (secretName : string)
    (domains : list string) :
  match GetTLSSecretContent C secretName w with
  | None => true
  | Some t => Time_Before (NotAfter (Crt t)) (Time_Add (time_Now C w) (expiring s))
              || negb (match_ domains (DNSNames (Crt t)))
  end = true
  <-> renewal_due C s w secretName domains.
Proof.
  unfold renewal_due, Time_Before, Time_Add.
  destruct (GetTLSSecretContent C secretName w) as [t|]; [|tauto].
  rewrite orb_true_iff, Z.ltb_lt, negb_true_iff, <- match_all.
  destruct (match_ domains (DNSNames (Crt t))); intuition congruence.
Qed.

(** One run of [verify] with a bound client: it returns, keeps the
    client and the window, and either issues (one signing call) or skips
    (three events, nothing else touched). *)
Lemma verify_run (st : State C) (secretName : string) (domains : list string) :
  HasAccount (self st) = true ->
  exists r st' evs,
    verify C secretName domains st = Ok r st'
    /\ trace st' = trace st ++ evs
    /\ client (self st') = client (self st)
    /\ expiring (self st') = expiring (self st)
    /\ (forall msg, r <> Some (Errorf msg))
    /\ (renewal_due C (self st) (env st) secretName domains ->
        sign_calls evs = 1%nat)
    /\ (~ renewal_due C (self st) (env st) secretName domains ->
        r = None
        /\ evs = [EvNow; EvGetTLSSecretContent secretName; EvLog InfoV2 MsgSkippingSign]
        /\ self st' = self st /\ env st' = env st).
Proof.
  destruct st as [[a [cl|] ex vc] w tr]; [intros _ | discriminate].
  pose proof (trigger_iff_due {| account := a; client := Some cl; expiring := ex;
                                 verifyCount := vc |} w secretName domains) as Hdue.
  cbn in Hdue. run.
  destruct (match GetTLSSecretContent C secretName w with
            | None => true
            | Some t => _ end) eqn:Htrig.
  - assert (Hd : renewal_due C {| account := a; client := Some cl; expiring := ex;
                                  verifyCount := vc |} w secretName domains)
      by (apply Hdue; reflexivity).
    destruct (Sign C cl domains w) as [[[crt key] [e|]] w1]; cbn.
    + do 3 eexists. split; [reflexivity|]. cbn. rewrite <- !app_assoc. cbn.
      split; [reflexivity|]. repeat split; try discriminate; tauto.
    + destruct (SetTLSSecretContent C secretName crt key w1) as [[e|] w2]; cbn;
        do 3 eexists; (split; [reflexivity|]); cbn; rewrite <- !app_assoc; cbn;
        (split; [reflexivity|]); repeat split; try discriminate; tauto.
  - assert (Hd : ~ renewal_due C {| account := a; client := Some cl; expiring := ex;
                                    verifyCount := vc |} w secretName domains)
      by (rewrite <- Hdue; congruence).
    do 3 eexists. split; [reflexivity|]. cbn. rewrite <- !app_assoc. cbn.
    split; [reflexivity|]. repeat split; try discriminate; tauto.
Qed.

(** C1: with a client bound, [verify] always returns; it calls the
    signing capability (exactly once) if and only if no certificate is
    stored, or the stored one expires before [now + expiring], or it
    does not cover every requested domain; otherwise it makes no signing
    and no storage call, changes nothing and returns nil. *)
Theorem verify_issues_iff_renewal_due (st : State C) (secretName : string)
    (domains : list string) :
  HasAccount (self st) = true ->
  exists r st' evs,
    verify C secretName domains st = Ok r st'
    /\ trace st' = trace st ++ evs
    /\ (sign_calls evs <= 1)%nat
    /\ (sign_calls evs = 1%nat
        <-> renewal_due C (self st) (env st) secretName domains)
    /\ (~ renewal_due C (self st) (env st) secretName domains ->
        r = None /\ sign_calls evs = 0%nat /\ store_calls evs = 0%nat
        /\ self st' = self st /\ env st' = env st).
Proof.
  intros Hacc.
  destruct (verify_run st secretName domains Hacc)
    as (r & st' & evs & Hrun & Htr & _ & _ & _ & Hdue & Hskip).
  exists r, st', evs. split; [exact Hrun|]. split; [exact Htr|].
  assert (Hdec : renewal_due C (self st) (env st) secretName domains
                 \/ ~ renewal_due C (self st) (env st) secretName domains).
  { rewrite <- trigger_iff_due.
    destruct (match GetTLSSecretContent C secretName (env st) with
              | None => true | Some t => _ end); [left | right]; congruence. }
  destruct Hdec as [Hd|Hd].
  - rewrite (Hdue Hd). split; [lia|]. split; [tauto|]. intros Hn. contradiction.
  - destruct (Hskip Hd) as (-> & -> & Hs & He).
    split; [cbn; lia|]. split; [cbn; split; [discriminate | contradiction]|].
    intros _. repeat split; assumption.
Qed.

(** C4, as the code has it: two calls of [verify] in succession, with
    a cache that returns what [verify] stored, invoke the signing
    capability at most once, and the second call takes the skip path (it
    returns nil after reading the clock and the store and writing one
    trace line), provided the first call returned nil and the
    certificate the signing capability issues covers every requested
    domain and does not expire before the due date once stored. *)
Theorem verify_twice_signs_once (decode : string -> string -> TLSSecret)
    (st st1 : State C) (secretName : string) (domains : list string) :
  HasAccount (self st) = true ->
  (forall crt key w w',
     SetTLSSecretContent C secretName crt key w = (None, w') ->
     GetTLSSecretContent C secretName w' = Some (decode crt key)) ->
  (forall cl crt key w1,
     client (self st) = Some cl ->
     Sign C cl domains (env st) = (crt, key, None, w1) ->
     (forall d, d ∈ domains -> d ∈ DNSNames (Crt (decode crt key)))
     /\ forall w2,
          SetTLSSecretContent C secretName crt key w1 = (None, w2) ->
          time_Now C w2 + expiring (self st) <= NotAfter (Crt (decode crt key))) ->
  verify C secretName domains st = Ok None st1 ->
  verify C secretName domains st1
  = Ok None {| self := self st1; env := env st1;
               trace := trace st1 ++ [EvNow; EvGetTLSSecretContent secretName;
                                      EvLog InfoV2 MsgSkippingSign] |}
  /\ exists evs,
       trace st1 ++ [EvNow; EvGetTLSSecretContent secretName;
                     EvLog InfoV2 MsgSkippingSign] = trace st ++ evs
       /\ (sign_calls evs <= 1)%nat.
Proof.
  intros Hacc Hcache Hca Hrun1.
  assert (Hfresh : ~ renewal_due C (self st1) (env st1) secretName domains
                   /\ client (self st1) = client (self st)
                   /\ exists evs1, trace st1 = trace st ++ evs1
                                   /\ (sign_calls evs1 <= 1)%nat).
  { destruct st as [[a [cl|] ex vc] w tr]; [|discriminate].
    pose proof (trigger_iff_due {| account := a; client := Some cl; expiring := ex;
                                   verifyCount := vc |} w secretName domains) as Hdue.
    cbn in Hdue. cbn [self env client expiring] in Hca. revert Hrun1. run.
    destruct (match GetTLSSecretContent C secretName w with
              | None => true
              | Some t => _ end) eqn:Htrig.
    - destruct (Sign C cl domains w) as [[[crt key] [e|]] w1] eqn:Hsign; cbn;
        [discriminate|].
      destruct (SetTLSSecretContent C secretName crt key w1) as [[e|] w2] eqn:Hset;
        cbn; [discriminate|].
      intros [= <-]. cbn [self env client trace].
      destruct (Hca cl crt key w1 eq_refl Hsign) as [Hcover Hlife].
      specialize (Hlife w2 Hset). split; [|split].
      + unfold renewal_due. rewrite (Hcache crt key w1 w2 Hset). cbn [expiring].
        intros [Hexp|Hmiss]; [lia | exact (Hmiss Hcover)].
      + reflexivity.
      + eexists. rewrite <- !app_assoc. split; [reflexivity|]. cbn. lia.
    - intros [= <-]. cbn [self env client trace]. split; [|split].
      + rewrite <- Hdue. congruence.
      + reflexivity.
      + eexists. rewrite <- !app_assoc. split; [reflexivity|]. cbn. lia. }
  destruct Hfresh as (Hfresh & Hcl & evs1 & Htr & Hone).
  assert (Hacc1 : HasAccount (self st1) = true)
    by (unfold HasAccount in *; rewrite Hcl; exact Hacc).
  destruct (verify_run st1 secretName domains Hacc1)
    as (r2 & st2 & evs2 & Hrun2 & Htr2 & _ & _ & _ & _ & Hskip2).
  destruct (Hskip2 Hfresh) as (-> & -> & Hs & He).
  split.
  - rewrite Hrun2. f_equal. destruct st2 as [s2 w2 tr2]. cbn in *. congruence.
  - exists (evs1 ++ [EvNow; EvGetTLSSecretContent secretName;
                     EvLog InfoV2 MsgSkippingSign]).
    split; [rewrite Htr, app_assoc; reflexivity|].
    unfold sign_calls in *. rewrite List.filter_app, length_app. cbn. lia.
Qed.


Lemma Account_DeepEqual_eq (a b : Account) : Account_DeepEqual a b = true <-> a = b.
Proof.
  unfold Account_DeepEqual. rewrite !andb_true_iff, !bool_decide_eq_true.
  destruct a, b; cbn. split; [intros [[-> ->] ->]; reflexivity | intros [= -> -> ->]; auto].
Qed.

(** C6: called with arguments whose normalized tuple is the stored
    account, [AcmeAccount] changes nothing and calls nothing; called with
    a different tuple it first drops the bound client: what follows does
    not depend on it, and the signer ends without a client (account
    kept) unless [NewClient] delivers a new one; window and counter are
    never touched. *)
Theorem AcmeAccount_same_tuple_noop (st : State C) (endpoint emails : string)
    (termsAgreed : bool) :
  let tuple := {| Endpoint := switch_endpoint endpoint; Emails := emails;
                  TermsAgreed := termsAgreed |} in
  (tuple = account (self st) ->
   AcmeAccount C endpoint emails termsAgreed st = Ok tt st)
  /\ (tuple <> account (self st) ->
      AcmeAccount C endpoint emails termsAgreed st
      = AcmeAccount C endpoint emails termsAgreed
          {| self := {| account := account (self st); client := None;
                        expiring := expiring (self st);
                        verifyCount := verifyCount (self st) |};
             env := env st; trace := trace st |}
      /\ exists st',
          AcmeAccount C endpoint emails termsAgreed st = Ok tt st'
          /\ expiring (self st') = expiring (self st)
          /\ verifyCount (self st') = verifyCount (self st)
          /\ (client (self st') = None /\ account (self st') = account (self st)
              \/ exists cl w', NewClient C tuple (env st) = (inl cl, w')
                               /\ client (self st') = Some cl
                               /\ account (self st') = tuple)).
Proof.
  intros tuple. destruct st as [[a cl ex vc] w tr]. cbn [self account env trace expiring verifyCount client].
  split.
  - intros <-. run.
    replace (Account_DeepEqual tuple _) with true
      by (symmetry; apply Account_DeepEqual_eq; reflexivity).
    reflexivity.
  - intros Hne.
    assert (Hd : Account_DeepEqual a tuple = false).
    { apply not_true_is_false. rewrite Account_DeepEqual_eq. congruence. }
    split.
    + run. fold tuple. rewrite Hd. reflexivity.
    + run. fold tuple. rewrite Hd.
      destruct (String.eqb (switch_endpoint endpoint) "" && String.eqb emails ""
                && negb termsAgreed).
      * eexists. split; [reflexivity|]. cbn. auto.
      * destruct (NewClient C tuple w) as [[cl'|e] w'] eqn:Hnew; cbn;
          (eexists; split; [reflexivity|]; cbn; split; [reflexivity|];
           split; [reflexivity|]); [right; eauto | left; auto].
Qed.

End SignerProps.

(** *** The theorems at scripted collaborators *)

Lemma match_iff_every_domain_covered_witness :
  ["a.example.com"] ⊆ ["b.example.com"; "a.example.com"]
  /\ match_ ["a.example.com"] ["b.example.com"; "a.example.com"] = true.
Proof.
  assert (H : ["a.example.com"] ⊆ ["b.example.com"; "a.example.com"]).
  { intros d Hd. apply elem_of_cons in Hd as [->|Hd]; [|inversion Hd].
    apply elem_of_cons. right. apply elem_of_cons. left. reflexivity. }
  split; [exact H|].
  exact (proj1 (proj2 match_iff_every_domain_covered) _ _ H).
Defined.

Lemma verify_issues_iff_renewal_due_witness :
  HasAccount (self (start ready_signer (world stored_site_cert false))) = true
  /\ exists r st' evs,
      verify scripted "site-tls" ["a.example.com"; "b.example.com"]
        (start ready_signer (world stored_site_cert false)) = Ok r st'
      /\ trace st' = trace (start ready_signer (world stored_site_cert false)) ++ evs
      /\ (sign_calls evs <= 1)%nat
      /\ (sign_calls evs = 1%nat
          <-> renewal_due scripted ready_signer (world stored_site_cert false)
                "site-tls" ["a.example.com"; "b.example.com"])
      /\ (~ renewal_due scripted ready_signer (world stored_site_cert false)
              "site-tls" ["a.example.com"; "b.example.com"] ->
          r = None /\ sign_calls evs = 0%nat /\ store_calls evs = 0%nat
          /\ self st' = ready_signer /\ env st' = world stored_site_cert false).
Proof.
  split; [reflexivity|].
  apply (verify_issues_iff_renewal_due scripted
           (start ready_signer (world stored_site_cert false))
           "site-tls" ["a.example.com"; "b.example.com"]).
  reflexivity.
Defined.

(** C4 as stated fails.  With no certificate stored and a certificate
    authority that refuses to sign, the store is the same before the
    second call, and both calls invoke the signing capability.  And with
    an authority that issues for ten days under a window of thirty, the
    first call signs, stores and returns nil, the cache holds what was
    stored, and the second call signs again. *)
Lemma verify_twice_signs_twice :
  (let refused := [EvNow; EvGetTLSSecretContent "site-tls"; EvLog InfoV2 MsgAuthorizing;
                   EvSign (letsencrypt : Client scripted) ["a.example.com"];
                   EvLog Warn MsgErrorSigning] in
   let st1 := {| self := counted 1; env := world ∅ true; trace := refused |} in
   let st2 := {| self := counted 2; env := world ∅ true; trace := refused ++ refused |} in
   verify scripted "site-tls" ["a.example.com"] (start ready_signer (world ∅ true))
   = Ok (Some (Collab "sign failed")) st1
   /\ GetTLSSecretContent scripted "site-tls" (env st1)
      = GetTLSSecretContent scripted "site-tls" (world ∅ true)
   /\ expiring (self st1) = expiring ready_signer
   /\ verify scripted "site-tls" ["a.example.com"] st1
      = Ok (Some (Collab "sign failed")) st2
   /\ sign_calls (trace st2) = 2%nat)
  /\ (let st0 := {| self := Vault.counted 0; env := Vault.empty_world 10; trace := [] |} in
      let st1 := {| self := Vault.counted 1; env := Vault.issued_world 10;
                    trace := Vault.issue_events 10 |} in
      let st2 := {| self := Vault.counted 2; env := Vault.issued_world 10;
                    trace := Vault.issue_events 10 ++ Vault.issue_events 10 |} in
      verify Vault.vault "site-tls" ["a.example.com"] st0 = Ok None st1
      /\ GetTLSSecretContent Vault.vault "site-tls" (env st1)
         = Some (Vault.decode (Vault.pem {| NotAfter := 10 * day;
                                            DNSNames := ["a.example.com"] |}) "key")
      /\ verify Vault.vault "site-tls" ["a.example.com"] st1 = Ok None st2
      /\ sign_calls (trace st2) = 2%nat).
Proof. repeat split. Qed.

Lemma vault_returns_what_was_stored (secretName crt key : string) (w w' : Vault.World) :
  SetTLSSecretContent Vault.vault secretName crt key w = (None, w') ->
  GetTLSSecretContent Vault.vault secretName w' = Some (Vault.decode crt key).
Proof.
  cbn. destruct (Vault.disk_ok w); [|discriminate]. intros [= <-]. cbn.
  rewrite lookup_insert_eq. reflexivity.
Qed.

(** An authority issuing for ninety days under a window of thirty: the
    first call signs and stores, the second skips. *)
Lemma verify_twice_signs_once_witness :
  let st0 := {| self := Vault.counted 0; env := Vault.empty_world 90; trace := [] |} in
  let st1 := {| self := Vault.counted 1; env := Vault.issued_world 90;
                trace := Vault.issue_events 90 |} in
  let skipped := [EvNow; EvGetTLSSecretContent "site-tls";
                  EvLog InfoV2 MsgSkippingSign] in
  HasAccount (self st0) = true
  /\ verify Vault.vault "site-tls" ["a.example.com"] st0 = Ok None st1
  /\ verify Vault.vault "site-tls" ["a.example.com"] st1
     = Ok None {| self := self st1; env := env st1; trace := trace st1 ++ skipped |}
  /\ exists evs, trace st1 ++ skipped = [] ++ evs /\ (sign_calls evs <= 1)%nat.
Proof.
  intros st0 st1 skipped.
  split; [reflexivity|]. split; [reflexivity|].
  apply (verify_twice_signs_once Vault.vault Vault.decode st0 st1 "site-tls"
           ["a.example.com"] eq_refl).
  - intros crt key w w'. apply vault_returns_what_was_stored.
  - intros cl crt key w1 _ Hsign. cbn in Hsign. injection Hsign as <- <- <-.
    split.
    + intros d Hd. exact Hd.
    + intros w2 Hset. cbn in Hset. injection Hset as <-.
      cbn. discriminate.
  - reflexivity.
Defined.


Lemma AcmeAccount_same_tuple_noop_witness :
  {| Endpoint := switch_endpoint "v2"; Emails := "ops@example.com"; TermsAgreed := true |}
  = account (self (start ready_signer (world ∅ false)))
  /\ AcmeAccount scripted "v2" "ops@example.com" true (start ready_signer (world ∅ false))
     = Ok tt (start ready_signer (world ∅ false)).
Proof.
  split; [reflexivity|].
  apply (proj1 (AcmeAccount_same_tuple_noop scripted (start ready_signer (world ∅ false))
                  "v2" "ops@example.com" true)).
  reflexivity.
Defined.

End AcmeProps.

(** ** Decimal text *)
Module NumProps.
Import Utils.

Lemma parse_digits_acc (d : Decimal.uint) (acc : positive) :
  parse_digits (NilEmpty.string_of_uint d) (Z.pos acc)
  = Some (Z.pos (Pos.of_uint_acc d acc)).
Proof.
  revert acc. induction d; intros acc; cbn [NilEmpty.string_of_uint parse_digits Pos.of_uint_acc];
    [reflexivity|..];
    (change (digit_of _) with (Some 0) || change (digit_of _) with (Some 1)
     || change (digit_of _) with (Some 2) || change (digit_of _) with (Some 3)
     || change (digit_of _) with (Some 4) || change (digit_of _) with (Some 5)
     || change (digit_of _) with (Some 6) || change (digit_of _) with (Some 7)
     || change (digit_of _) with (Some 8) || change (digit_of _) with (Some 9));
    cbv iota beta; rewrite <- IHd; f_equal; lia.
Qed.

Lemma parse_digits_zero (d : Decimal.uint) :
  parse_digits (NilEmpty.string_of_uint d) 0 = Some (Z.of_N (Pos.of_uint d)).
Proof.
  induction d; cbn [NilEmpty.string_of_uint parse_digits Pos.of_uint];
    [reflexivity | exact IHd |..];
    (change (digit_of _) with (Some 1)
     || change (digit_of _) with (Some 2) || change (digit_of _) with (Some 3)
     || change (digit_of _) with (Some 4) || change (digit_of _) with (Some 5)
     || change (digit_of _) with (Some 6) || change (digit_of _) with (Some 7)
     || change (digit_of _) with (Some 8) || change (digit_of _) with (Some 9));
    cbv iota beta; apply parse_digits_acc.
Qed.

Lemma parse_digits_pos (p : positive) :
  parse_digits (NilEmpty.string_of_uint (Pos.to_uint p)) 0 = Some (Z.pos p).
Proof. rewrite parse_digits_zero, Unsigned.of_to. reflexivity. Qed.

(** The text of a positive number starts with a digit. *)
Lemma digits_head (p : positive) :
  exists c rest,
    NilEmpty.string_of_uint (Pos.to_uint p) = String c rest
    /\ Ascii.eqb c "-" = false /\ Ascii.eqb c "+" = false.
Proof.
  pose proof (Unsigned.to_uint_nonnil p) as Hn.
  destruct (Pos.to_uint p); [contradiction|..]; cbn; eauto.
Qed.

Lemma string_of_uint_nonnil (p : positive) :
  NilZero.string_of_uint (Pos.to_uint p) = NilEmpty.string_of_uint (Pos.to_uint p).
Proof.
  pose proof (Unsigned.to_uint_nonnil p) as Hn.
  destruct (Pos.to_uint p); [contradiction|..]; reflexivity.
Qed.

(** [strconv.Atoi] reads back what [strconv.Itoa] prints. *)
Lemma Atoi_Itoa (z : Z) : - 2 ^ 63 <= z < 2 ^ 63 -> Atoi (Itoa z) = Some z.
Proof.
  intros Hz. unfold Itoa. destruct z as [|p|p]; [reflexivity|..];
    cbn [Z.to_int NilZero.string_of_int]; rewrite string_of_uint_nonnil.
  - destruct (digits_head p) as (c & rest & Hs & Hm & Hp).
    pose proof (parse_digits_pos p) as Hd. rewrite Hs in Hd |- *.
    unfold Atoi. rewrite Hm, Hp. cbn [orb]. rewrite Hd.
    replace ((- 2 ^ 63 <=? Z.pos p) && (Z.pos p <? 2 ^ 63)) with true; [reflexivity|].
    symmetry. apply andb_true_iff. split; [apply Z.leb_le | apply Z.ltb_lt]; lia.
  - destruct (digits_head p) as (c & rest & Hs & Hm & Hp).
    pose proof (parse_digits_pos p) as Hd. rewrite Hs in Hd |- *.
    unfold Atoi. change (Ascii.eqb "-" "-") with true. cbn [orb]. rewrite Hd.
    replace ((- 2 ^ 63 <=? - Z.pos p) && (- Z.pos p <? 2 ^ 63)) with true;
      [reflexivity|].
    symmetry. apply andb_true_iff. split; [apply Z.leb_le | apply Z.ltb_lt]; lia.
Qed.

Lemma Itoa_inj (z1 z2 : Z) :
  - 2 ^ 63 <= z1 < 2 ^ 63 -> - 2 ^ 63 <= z2 < 2 ^ 63 -> Itoa z1 = Itoa z2 -> z1 = z2.
Proof.
  intros H1 H2 He. apply Atoi_Itoa in H1. apply Atoi_Itoa in H2. congruence.
Qed.

Lemma digits_no_colon (d : Decimal.uint) (s1 s2 : string) :
  NilEmpty.string_of_uint d <> s1 +:+ String ":" s2.
Proof.
  revert s1. induction d; intros s1; destruct s1 as [|c s1]; cbn; try discriminate;
    intros [= _ H]; exact (IHd _ H).
Qed.

Lemma Itoa_no_colon (z : Z) (s1 s2 : string) : Itoa z <> s1 +:+ String ":" s2.
Proof.
  unfold Itoa. destruct z as [|p|p]; cbn [Z.to_int NilZero.string_of_int].
  - destruct s1 as [|c [|c' s1]]; cbn; discriminate.
  - rewrite string_of_uint_nonnil. apply digits_no_colon.
  - rewrite string_of_uint_nonnil. destruct s1 as [|c s1]; cbn; [discriminate|].
    intros [= _ H]. exact (digits_no_colon _ _ _ H).
Qed.

(** A text is cut in one way only at a colon that is followed by a
    number. *)
Lemma colon_number_inj (ip1 ip2 : string) (z1 z2 : Z) :
  ip1 +:+ ":" +:+ Itoa z1 = ip2 +:+ ":" +:+ Itoa z2 ->
  ip1 = ip2 /\ Itoa z1 = Itoa z2.
Proof.
  revert ip2. induction ip1 as [|c ip1 IH]; intros [|c2 ip2]; cbn.
  - intros [= H]. auto.
  - intros [= _ H]. exfalso. exact (Itoa_no_colon _ _ _ H).
  - intros [= _ H]. exfalso. symmetry in H. exact (Itoa_no_colon _ _ _ H).
  - intros [= -> H]. destruct (IH _ H) as [-> Hz]. auto.
Qed.

Lemma digit_of_range (c : ascii) (d : Z) : digit_of c = Some d -> 0 <= d <= 9.
Proof.
  unfold digit_of.
  destruct ((48 <=? Z.of_N (N_of_ascii c)) && (Z.of_N (N_of_ascii c) <=? 57)) eqn:H;
    [|discriminate].
  apply andb_true_iff in H as [H1 H2]. intros [= <-]. lia.
Qed.

Lemma parse_digits_mono (s : string) (acc n : Z) :
  0 <= acc -> parse_digits s acc = Some n -> acc <= n.
Proof.
  revert acc. induction s as [|c s IH]; intros acc Hacc; cbn.
  - intros [= <-]. lia.
  - destruct (digit_of c) as [d|] eqn:Hd; [|discriminate].
    apply digit_of_range in Hd. intros H. apply IH in H; lia.
Qed.

(** On text whose number fits, the digit loop of [ParseUint] is the
    plain reading of the digits. *)
Lemma ParseUint_loop_fits (s : string) (acc n : Z) :
  0 <= acc -> parse_digits s acc = Some n -> n < 2 ^ 64 ->
  ParseUint_loop s acc = (n, None).
Proof.
  revert acc. induction s as [|c s IH]; intros acc Hacc; cbn.
  - intros [= <-] _. reflexivity.
  - destruct (digit_of c) as [d|] eqn:Hd; [|discriminate].
    pose proof (digit_of_range _ _ Hd) as Hr. intros H Hn.
    assert (Hm : acc * 10 + d <= n) by (apply (parse_digits_mono s); [lia | exact H]).
    change (2 ^ 64) with 18446744073709551616 in *.
    destruct (Z.leb_spec ((18446744073709551616 - 1) / 10 + 1) acc) as [Hc|Hc];
      [change ((18446744073709551616 - 1) / 10 + 1) with 1844674407370955162 in Hc;
       lia|].
    destruct (Z.ltb_spec (18446744073709551616 - 1) (acc * 10 + d)) as [Hc2|Hc2];
      [lia|].
    apply IH; [lia | exact H | exact Hn].
Qed.

(** When [Atoi] succeeds, the value beside the nil error is the
    number. *)
Lemma Atoi_pair_ok (s : string) (n : Z) : Atoi s = Some n -> Atoi_pair s = (n, None).
Proof.
  unfold Atoi, Atoi_pair. destruct s as [|c rest]; [discriminate|].
  cbv zeta.
  destruct (if Ascii.eqb c "-" || Ascii.eqb c "+" then rest else String c rest)
    as [|c' digits] eqn:Hdig; [discriminate|].
  destruct (parse_digits (String c' digits) 0) as [m|] eqn:Hm; [|discriminate].
  assert (Hpos : 0 <= m) by (apply (parse_digits_mono (String c' digits)); [lia | exact Hm]).
  assert (H63 : 2 ^ 63 = 9223372036854775808) by reflexivity.
  assert (H64 : 2 ^ 64 = 18446744073709551616) by reflexivity.
  destruct (Ascii.eqb c "-") eqn:Hneg.
  - destruct ((- 2 ^ 63 <=? - m) && (- m <? 2 ^ 63)) eqn:Hr; [|discriminate].
    apply andb_true_iff in Hr as [H1 H2]. apply Z.leb_le in H1. apply Z.ltb_lt in H2.
    intros [= <-].
    rewrite (ParseUint_loop_fits _ 0 m ltac:(lia) Hm ltac:(lia)).
    cbn [negb andb].
    destruct (Z.ltb_spec (2 ^ 63) m); [lia | reflexivity].
  - destruct ((- 2 ^ 63 <=? m) && (m <? 2 ^ 63)) eqn:Hr; [|discriminate].
    apply andb_true_iff in Hr as [H1 H2]. apply Z.leb_le in H1. apply Z.ltb_lt in H2.
    intros [= <-].
    rewrite (ParseUint_loop_fits _ 0 m ltac:(lia) Hm ltac:(lia)).
    cbn [negb andb].
    destruct (Z.leb_spec (2 ^ 63) m); [lia | reflexivity].
Qed.

End NumProps.

(** ** Loops that return *)
Section RangeFind.
Context {A : Type}.

Lemma first_such_unique (P : A -> Prop) (l : list A) (x y : A) :
  first_such P l x -> first_such P l y -> x = y.
Proof.
  intros (l1 & l2 & -> & Hx & Hl1) (k1 & k2 & He & Hy & Hk1).
  revert k1 He Hk1. induction l1 as [|a l1 IH]; intros [|b k1] He Hk1; cbn in He.
  - congruence.
  - injection He as <- _. apply Forall_cons in Hk1 as [Hn _]. contradiction.
  - injection He as -> _. apply Forall_cons in Hl1 as [Hn _]. contradiction.
  - injection He as <- He. apply Forall_cons in Hl1 as [_ Hl1].
    apply Forall_cons in Hk1 as [_ Hk1]. exact (IH Hl1 k1 He Hk1).
Qed.

Lemma range_find_first {B : Type} (test : A -> bool) (found : A -> B) (l : list A) :
  match Services.range_find (fun x => if test x then Some (found x) else None) l with
  | Some b => exists x, first_such (fun y => test y = true) l x /\ b = found x
  | None => Forall (fun y => test y <> true) l
  end.
Proof.
  induction l as [|a l IH]; cbn; [constructor|].
  destruct (test a) eqn:Ha.
  - exists a. split; [|reflexivity]. exists [], l. repeat split; [exact Ha | constructor].
  - destruct (Services.range_find _ l) as [b|].
    + destruct IH as (x & (l1 & l2 & -> & Hx & Hl1) & ->). exists x.
      split; [|reflexivity]. exists (a :: l1), l2.
      repeat split; [exact Hx|]. constructor; [congruence | exact Hl1].
    + constructor; [congruence | exact IH].
Qed.

Lemma range_find_flat {B C : Type} (body : B -> option C) (inner : A -> list B)
    (l : list A) :
  Services.range_find (fun x => Services.range_find body (inner x)) l = Services.range_find body (flat_map inner l).
Proof.
  induction l as [|a l IH]; cbn; [reflexivity|]. rewrite IH. clear IH.
  induction (inner a) as [|b bs IHb]; cbn; [reflexivity|].
  destruct (body b); [reflexivity | exact IHb].
Qed.

Lemma first_such_iff (P Q : A -> Prop) (l : list A) (x : A) :
  (forall y, P y <-> Q y) -> first_such P l x -> first_such Q l x.
Proof.
  intros H (l1 & l2 & -> & Hx & Hl1). exists l1, l2. repeat split; [apply H, Hx|].
  eapply Forall_impl; [exact Hl1|]. intros y Hy HQ. apply Hy, H, HQ.
Qed.

End RangeFind.

(** ** More about loops *)
Section MoreLoops.
Context {S A B : Type}.
Implicit Types (l : list A) (body : B -> A -> M S B).

Lemma for_range_ext l body1 body2 :
  (forall acc x s, x ∈ l -> body1 acc x s = body2 acc x s) ->
  forall acc s, for_range l body1 acc s = for_range l body2 acc s.
Proof.
  induction l as [|x l IH]; intros Hbody acc s; cbn; [reflexivity|].
  unfold bind. rewrite (Hbody acc x s) by left.
  destruct (body2 acc x s) as [acc1 s1|]; [|reflexivity].
  apply IH. intros ? y ? Hy. apply Hbody. right. exact Hy.
Qed.

Lemma for_range_skip l body :
  (forall acc x s, x ∈ l -> body acc x s = Ok acc s) ->
  forall acc s, for_range l body acc s = Ok acc s.
Proof.
  induction l as [|x l IH]; intros Hbody acc s; cbn; [reflexivity|].
  unfold bind. rewrite (Hbody acc x s) by left.
  apply IH. intros ? y ? Hy. apply Hbody. right. exact Hy.
Qed.

(** A relation between states that every round of the loop keeps is
    kept by the loop, however it ends. *)
Lemma for_range_state (R : S -> S -> Prop) l body :
  (forall s, R s s) -> (forall s1 s2 s3, R s1 s2 -> R s2 s3 -> R s1 s3) ->
  (forall acc x s, x ∈ l -> R s (state_of (body acc x s))) ->
  forall acc s, R s (state_of (for_range l body acc s)).
Proof.
  intros Hrefl Htrans. induction l as [|x l IH]; intros Hbody acc s; cbn; [apply Hrefl|].
  unfold bind. pose proof (Hbody acc x s ltac:(left)) as Hx.
  destruct (body acc x s) as [acc1 s1|why s1]; cbn in *; [|exact Hx].
  eapply Htrans; [exact Hx|]. apply IH. intros ? y ? Hy. apply Hbody. right. exact Hy.
Qed.

End MoreLoops.

Lemma flat_map_singleton {A B : Type} (f : A -> B) (l : list A) :
  flat_map (fun x => [f x]) l = map f l.
Proof. induction l as [|x l IH]; cbn; [reflexivity | rewrite IH; reflexivity]. Qed.

Lemma flat_map_nil {A B : Type} (l : list A) : flat_map (fun _ : A => @nil B) l = [].
Proof. induction l as [|x l IH]; cbn; [reflexivity | exact IH]. Qed.

Module ServicesProps.
Import Utils Services NumProps UtilsProps.

Lemma names_port_test (servicePort : string) (port : ServicePort) :
  String.eqb (api.SvcPort_Name (Base port)) servicePort
  || String.eqb (IntOrString_String (TargetPort port)) servicePort = true
  <-> names_port servicePort port.
Proof. unfold names_port. rewrite orb_true_iff, !String.eqb_eq. reflexivity. Qed.

Lemma numbered_port_test (n : Z) (port : ServicePort) :
  (api.SvcPort_Port (Base port) =? int32_wrap n) = true <-> numbered_port n port.
Proof. unfold numbered_port. apply Z.eqb_eq. Qed.

(** X1: [FindServicePort] returns a port exactly when it is the first
    port whose name or target-port text equals the argument, or, no port
    matching by text, the argument reads as a number and it is the first
    port whose number equals it after the conversion to [int32]. *)
Theorem FindServicePort_first_match (ports : list ServicePort) (servicePort : string)
    (found : ServicePort) :
  FindServicePort ports servicePort = Some found
  <-> first_such (names_port servicePort) ports found
      \/ (Forall (fun port => ~ names_port servicePort port) ports
          /\ exists n, Atoi servicePort = Some n
                       /\ first_such (numbered_port n) ports found).
Proof.
  unfold FindServicePort.
  pose proof (range_find_first
                (fun port => String.eqb (api.SvcPort_Name (Base port)) servicePort
                             || String.eqb (IntOrString_String (TargetPort port))
                                           servicePort)
                (fun port => port) ports) as Hname.
  destruct (range_find _ ports) as [p|].
  - destruct Hname as (x & Hx & ->).
    apply (first_such_iff _ (names_port servicePort)) in Hx;
      [|intros y; apply names_port_test].
    split.
    + intros [= <-]. left. exact Hx.
    + intros [Hf|[Hnone _]].
      * f_equal. exact (first_such_unique _ _ _ _ Hx Hf).
      * destruct Hx as (l1 & l2 & -> & Hp & _).
        apply Forall_app in Hnone as [_ Hnone]. apply Forall_cons in Hnone as [Hn _].
        contradiction.
  - assert (Hnone : Forall (fun port => ~ names_port servicePort port) ports).
    { eapply Forall_impl; [exact Hname|]. intros y Hy Hn. apply Hy, names_port_test, Hn. }
    destruct (Atoi servicePort) as [n|].
    + pose proof (range_find_first
                    (fun port => api.SvcPort_Port (Base port) =? int32_wrap n)
                    (fun port => port) ports) as Hnum.
      cbv zeta. destruct (range_find _ ports) as [p|].
      * destruct Hnum as (x & Hx & ->).
        apply (first_such_iff _ (numbered_port n)) in Hx;
          [|intros y; apply numbered_port_test].
        split.
        -- intros [= <-]. right. eauto.
        -- intros [(l1 & l2 & -> & Hp & _)|(_ & m & [= <-] & Hf)].
           ++ apply Forall_app in Hnone as [_ Hnone].
              apply Forall_cons in Hnone as [Hn _]. contradiction.
           ++ f_equal. exact (first_such_unique _ _ _ _ Hx Hf).
      * split; [discriminate|].
        intros [(l1 & l2 & -> & Hp & _)|(_ & m & [= <-] & (l1 & l2 & -> & Hp & _))].
        -- apply Forall_app in Hnone as [_ Hnone].
           apply Forall_cons in Hnone as [Hn _]. contradiction.
        -- apply Forall_app in Hnum as [_ Hnum]. apply Forall_cons in Hnum as [Hn _].
           exfalso. apply Hn, numbered_port_test, Hp.
    + split; [discriminate|].
      intros [(l1 & l2 & -> & Hp & _)|(_ & m & [=] & _)].
      apply Forall_app in Hnone as [_ Hnone].
      apply Forall_cons in Hnone as [Hn _]. contradiction.
Qed.


(** X2: the number is compared after [int32(...)]: two numeric
    arguments that agree modulo 2^32, neither matching a port by text,
    find the same port (or none). *)
Theorem FindServicePort_number_modulo (ports : list ServicePort) (s1 s2 : string)
    (n1 n2 : Z) :
  Atoi s1 = Some n1 -> Atoi s2 = Some n2 ->
  n1 mod 2 ^ 32 = n2 mod 2 ^ 32 ->
  Forall (fun port => ~ names_port s1 port) ports ->
  Forall (fun port => ~ names_port s2 port) ports ->
  FindServicePort ports s1 = FindServicePort ports s2.
Proof.
  intros H1 H2 Hmod Hn1 Hn2.
  assert (Hw : int32_wrap n1 = int32_wrap n2).
  { unfold int32_wrap. f_equal.
    rewrite <- (Zplus_mod_idemp_l n1), <- (Zplus_mod_idemp_l n2), Hmod. reflexivity. }
  assert (Hnone : forall s, Forall (fun port => ~ names_port s port) ports ->
            range_find (fun port =>
                          if String.eqb (api.SvcPort_Name (Base port)) s
                             || String.eqb (IntOrString_String (TargetPort port)) s
                          then Some port else None) ports = None).
  { intros s Hs.
    pose proof (range_find_first
                  (fun port => String.eqb (api.SvcPort_Name (Base port)) s
                               || String.eqb (IntOrString_String (TargetPort port)) s)
                  (fun port => port) ports) as Hname.
    destruct (range_find _ ports) as [p|]; [|reflexivity].
    destruct Hname as (x & (l1 & l2 & -> & Hx & _) & _).
    apply Forall_app in Hs as [_ Hs]. apply Forall_cons in Hs as [Hs _].
    exfalso. apply Hs, names_port_test, Hx. }
  unfold FindServicePort. rewrite (Hnone s1 Hn1), (Hnone s2 Hn2), H1, H2. cbv zeta.
  rewrite Hw. reflexivity.
Qed.

Lemma FindServicePort_number_modulo_witness :
  Atoi "80" = Some 80 /\ Atoi "4294967376" = Some 4294967376
  /\ FindServicePort web_ports "80" = FindServicePort web_ports "4294967376".
Proof.
  split; [reflexivity|]. split; [reflexivity|].
  apply (FindServicePort_number_modulo web_ports "80" "4294967376" 80 4294967376);
    try reflexivity;
    repeat constructor; intros [H|H]; discriminate H.
Defined.

(** X3: a positive numeric target port, given as a number or as text
    that reads as one, is the container port; the pod is not consulted. *)
Theorem FindContainerPort_numeric_target (pod : Pod) (svcPort : ServicePort) :
  (forall i, TargetPort svcPort = FromInt i -> 0 < i ->
             FindContainerPort pod svcPort = i)
  /\ (forall s n, TargetPort svcPort = FromString s -> Atoi s = Some n -> 0 < n ->
                  FindContainerPort pod svcPort = n).
Proof.
  unfold FindContainerPort. split.
  - intros i -> Hi. cbn. destruct (Z.ltb_spec 0 i); [reflexivity | lia].
  - intros s n -> Hs Hn. cbn [IntOrString_IntValue]. rewrite (Atoi_pair_ok s n Hs).
    cbn [fst]. destruct (Z.ltb_spec 0 n); [reflexivity | lia].
Qed.

Lemma FindContainerPort_numeric_target_witness :
  Atoi "8081" = Some 8081
  /\ FindContainerPort web_pod (named_port "http" 80 (FromString "8081")) = 8081.
Proof.
  split; [reflexivity|].
  apply (proj2 (FindContainerPort_numeric_target web_pod
                  (named_port "http" 80 (FromString "8081"))) "8081" 8081);
    reflexivity.
Defined.

Lemma serves_test (svcPort : ServicePort) (port : ContainerPort) :
  String.eqb (CPort_Protocol port) (api.SvcPort_Protocol (Base svcPort))
  && String.eqb (CPort_Name port) (IntOrString_String (TargetPort svcPort)) = true
  <-> serves svcPort port.
Proof. unfold serves. rewrite andb_true_iff, !String.eqb_eq. reflexivity. Qed.

(** X4: without a positive numeric target, [FindContainerPort] gives
    the [ContainerPort] of the first port, over the containers in order,
    that has the service port's protocol and the target port's text as
    name; when there is none it gives 0. *)
Theorem FindContainerPort_named_target (pod : Pod) (svcPort : ServicePort) :
  IntOrString_IntValue (TargetPort svcPort) <= 0 ->
  (forall port,
     first_such (serves svcPort) (flat_map Container_Ports (Spec_Containers pod)) port ->
     FindContainerPort pod svcPort = CPort_ContainerPort port)
  /\ (Forall (fun port => ~ serves svcPort port)
             (flat_map Container_Ports (Spec_Containers pod)) ->
      FindContainerPort pod svcPort = 0).
Proof.
  intros Hv. unfold FindContainerPort. cbv zeta.
  destruct (Z.ltb_spec 0 (IntOrString_IntValue (TargetPort svcPort))); [lia|].
  rewrite range_find_flat.
  pose proof (range_find_first
                (fun port =>
                   String.eqb (CPort_Protocol port) (api.SvcPort_Protocol (Base svcPort))
                   && String.eqb (CPort_Name port)
                                 (IntOrString_String (TargetPort svcPort)))
                CPort_ContainerPort
                (flat_map Container_Ports (Spec_Containers pod))) as Hfind.
  destruct (range_find _ (flat_map _ _)) as [p|].
  - destruct Hfind as (x & Hx & ->).
    apply (first_such_iff _ (serves svcPort)) in Hx; [|intros y; apply serves_test].
    split.
    + intros port Hport. f_equal. exact (first_such_unique _ _ _ _ Hx Hport).
    + intros Hnone. destruct Hx as (l1 & l2 & He & Hs & _). rewrite He in Hnone.
      apply Forall_app in Hnone as [_ Hnone]. apply Forall_cons in Hnone as [Hn _].
      contradiction.
  - split; [|reflexivity].
    intros port (l1 & l2 & He & Hs & _). rewrite He in Hfind.
    apply Forall_app in Hfind as [_ Hfind]. apply Forall_cons in Hfind as [Hn _].
    exfalso. apply Hn, serves_test, Hs.
Qed.

Lemma FindContainerPort_named_target_witness :
  IntOrString_IntValue (TargetPort (named_port "https" 443 (FromString "tls"))) <= 0
  /\ FindContainerPort web_pod (named_port "https" 443 (FromString "tls")) = 8443.
Proof.
  split; [vm_compute; discriminate|].
  apply (proj1 (FindContainerPort_named_target web_pod
                  (named_port "https" 443 (FromString "tls"))
                  ltac:(vm_compute; discriminate))
           {| CPort_Name := "tls"; CPort_ContainerPort := 8443; CPort_Protocol := "TCP" |}).
  exists [ {| CPort_Name := "metrics"; CPort_ContainerPort := 9090;
              CPort_Protocol := "TCP" |} ], [].
  split; [reflexivity|]. split; [split; reflexivity|].
  constructor; [|constructor]. intros [_ H]. discriminate H.
Defined.

(** X5: the [Target] text of [newEndpoint] determines the address and
    the port: two targets are equal exactly when both are, whatever the
    address text contains. *)
Theorem newEndpoint_Target_inj (ip1 ip2 : string) (port1 port2 : Z)
    (ref1 ref2 : option api.ObjectReference) :
  - 2 ^ 63 <= port1 < 2 ^ 63 -> - 2 ^ 63 <= port2 < 2 ^ 63 ->
  (Target (newEndpoint ip1 port1 ref1) = Target (newEndpoint ip2 port2 ref2)
   <-> ip1 = ip2 /\ port1 = port2).
Proof.
  intros H1 H2. cbn [newEndpoint Target]. split.
  - intros H. apply colon_number_inj in H as [-> Hp].
    split; [reflexivity|]. exact (Itoa_inj _ _ H1 H2 Hp).
  - intros [-> ->]. reflexivity.
Qed.

Lemma newEndpoint_Target_inj_witness :
  Target (newEndpoint "10.0.0.1" 8080 None) = Target (newEndpoint "10.0.0.1" 8080 None)
  <-> "10.0.0.1" = "10.0.0.1" /\ 8080 = 8080.
Proof.
  apply (newEndpoint_Target_inj "10.0.0.1" "10.0.0.1" 8080 8080 None None);
    (split; [vm_compute; discriminate | vm_compute; reflexivity]).
Defined.


Section LegacyProps.
Variable cache : Cache.

Ltac step :=
  cbv beta iota zeta delta
    [bind ret panic deref gets modify emit klog cacheGetNodeByName
     cacheGetEndpoints cacheGetEndpointSlices cacheExternalNameLookup].

Lemma legacy_run (endpoints : api.Endpoints) (svcPort : api.ServicePort)
    (tr : list Call) :
  exists tr',
    createEndpoints cache endpoints svcPort tr
    = Ok (legacy_ready cache svcPort endpoints, legacy_notReady svcPort endpoints, None)
         tr'.
Proof.
  destruct (createEndpoints_total cache endpoints svcPort tr) as (r & n & tr' & Hrun).
  exists tr'. rewrite Hrun. do 2 f_equal.
  revert Hrun. unfold createEndpoints. unfold bind at 1.
  destruct (for_range (api.Subsets endpoints) _ _ tr) as [[r0 n0] s1|] eqn:Hloop;
    [|discriminate].
  intros [= <- <- <-].
  eapply (for_range_collect _ _
            (fun subset => flat_map _ (api.Ports subset))
            (fun subset => flat_map _ (api.Ports subset))) in Hloop.
  { cbn in Hloop. injection Hloop as -> ->. reflexivity. }
  intros acc subset s acc' s' _ Hports.
  eapply (for_range_collect _ _
            (fun epPort => if matchPort svcPort epPort
                           then map _ (api.Addresses subset) else [])
            (fun epPort => if matchPort svcPort epPort
                           then map _ (api.NotReadyAddresses subset) else []))
    in Hports; [exact Hports|].
  clear. intros acc epPort s acc' s' _.
  destruct (matchPort svcPort epPort);
    [|intros [= <- _]; rewrite !app_nil_r; destruct acc; reflexivity].
  cbn zeta. unfold bind at 1.
  match goal with
  | |- context [for_range (api.Addresses subset) ?b acc s] =>
      destruct (for_range (api.Addresses subset) b acc s) as [acc1 s1|] eqn:Haddr;
      [|discriminate]
  end.
  intros Hnot.
  eapply (@for_range_collect (list Call) api.EndpointAddress Endpoint _ _
            (fun addr => [_]) (fun _ => [])) in Haddr.
  2:{ intros acc2 addr s2 acc2' s2' _. unfold bind.
      destruct (getNodeWeight_run cache (api.Addr_NodeName addr) s2) as [tr1 ->].
      intros [= <- _]. rewrite app_nil_r. reflexivity. }
  eapply (@for_range_collect (list Call) api.EndpointAddress Endpoint _ _
            (fun _ => []) (fun addr => [_])) in Hnot.
  2:{ intros acc2 addr s2 acc2' s2' _ [= <- _]. rewrite app_nil_r. reflexivity. }
  rewrite Hnot, Haddr. cbn [fst snd].
  rewrite !flat_map_nil, !app_nil_r, !flat_map_singleton. reflexivity.
Qed.


(** X6: the legacy resolver always returns, with a nil error; its ready
    list holds, subset by subset and matching port by matching port, the
    ready addresses with their node and a weight between 1 and 127, its
    other list the addresses that are not ready, without node and with
    weight 0. *)
Theorem createEndpoints_collects (endpoints : api.Endpoints) (svcPort : api.ServicePort)
    (tr : list Call) :
  (exists tr',
     createEndpoints cache endpoints svcPort tr
     = Ok (legacy_ready cache svcPort endpoints, legacy_notReady svcPort endpoints, None)
          tr')
  /\ Forall (fun e => Weight e = 0 /\ NodeName e = None)
            (legacy_notReady svcPort endpoints)
  /\ Forall weight_ok (legacy_ready cache svcPort endpoints).
Proof.
  split; [apply legacy_run|]. split.
  - unfold legacy_notReady. apply Forall_flat_map_all. intros subset.
    apply Forall_flat_map_all. intros epPort.
    destruct (matchPort svcPort epPort); [|constructor].
    apply Forall_map, Forall_true. intros addr. split; reflexivity.
  - unfold legacy_ready. apply Forall_flat_map_all. intros subset.
    apply Forall_flat_map_all. intros epPort.
    destruct (matchPort svcPort epPort); [|constructor].
    apply Forall_map, Forall_true. intros addr. apply node_weight_range.
Qed.

(** X7: of the service port the legacy resolver reads the name only:
    two service ports of the same name resolve alike, calls included;
    and when no endpoint port is TCP nothing is resolved and no call is
    made, whatever the service port's protocol. *)
Theorem createEndpoints_reads_name_only (endpoints : api.Endpoints)
    (svcPort1 svcPort2 : api.ServicePort) (tr : list Call) :
  (api.SvcPort_Name svcPort1 = api.SvcPort_Name svcPort2 ->
   createEndpoints cache endpoints svcPort1 tr
   = createEndpoints cache endpoints svcPort2 tr)
  /\ ((forall subset epPort,
         subset ∈ api.Subsets endpoints -> epPort ∈ api.Ports subset ->
         api.EpPort_Protocol epPort <> api.ProtocolTCP) ->
      createEndpoints cache endpoints svcPort1 tr = Ok ([], [], None) tr).
Proof.
  split.
  - intros Hname. unfold createEndpoints. unfold bind at 1 3.
    erewrite for_range_ext; [reflexivity|].
    intros acc subset s _. apply for_range_ext. intros acc1 epPort s1 _.
    unfold matchPort. rewrite Hname. reflexivity.
  - intros Hudp. unfold createEndpoints. unfold bind at 1.
    rewrite for_range_skip; [reflexivity|].
    intros acc subset s Hs. apply for_range_skip. intros acc1 epPort s1 Hp.
    unfold matchPort.
    destruct (String.eqb_spec (api.EpPort_Protocol epPort) api.ProtocolTCP) as [He|Hne];
      [exfalso; exact (Hudp subset epPort Hs Hp He) | reflexivity].
Qed.

(** X8: for a node that is found and whose weight annotation is the
    decimal text of [w], [getNodeWeight] returns [w] when it lies
    between 1 and 127, after one node lookup and the two lines that
    report the weight, and 50 with a warning otherwise. *)
Theorem getNodeWeight_reads_annotation (nodeName : string) (node : api.Node) (w : Z)
    (tr : list Call) :
  GetNodeByName cache nodeName = inl node ->
  api.Annotations node !! nodeWeightAnnotation = Some (Itoa w) ->
  - 2 ^ 63 <= w < 2 ^ 63 ->
  (1 <= w <= 127 ->
   getNodeWeight cache (Some nodeName) tr
   = Ok w (tr ++ [CallLog V4SearchingWeight; CallGetNodeByName nodeName;
                  CallLog PrintfFoundWeight; CallLog V4FoundWeight]))
  /\ (~ 1 <= w <= 127 ->
      getNodeWeight cache (Some nodeName) tr
      = Ok defaultServerWeight
           (tr ++ [CallLog V4SearchingWeight; CallGetNodeByName nodeName;
                   CallLog WarnInvalidNodeWeight])).
Proof.
  intros Hnode Hann Hw. unfold getNodeWeight. step. rewrite Hnode. cbn [lift_res].
  rewrite Hann, (Atoi_Itoa w Hw). split; intros Hr.
  - destruct (Z.ltb_spec w 1); [lia|]. destruct (Z.gtb_spec w 127); [lia|].
    cbn [orb]. rewrite <- !app_assoc. reflexivity.
  - destruct (Z.ltb_spec w 1); destruct (Z.gtb_spec w 127); try lia;
      cbn [orb]; rewrite <- !app_assoc; reflexivity.
Qed.

End LegacyProps.


Ltac step :=
  cbv beta iota zeta delta
    [bind ret panic deref gets modify emit klog cacheGetNodeByName
     cacheGetEndpoints cacheGetEndpointSlices cacheExternalNameLookup].

(** Two sorted rearrangements of the same endpoints list the same
    targets in the same order. *)
Lemma sorted_targets_unique (l1 l2 : list Endpoint) :
  sorted_by_Target l1 -> sorted_by_Target l2 ->
  map Target l1 ≡ₚ map Target l2 ->
  map Target l1 = map Target l2.
Proof.
  intros H1 H2 Hp. apply (StronglySorted_unique String.le); [..|exact Hp].
  - eapply (StronglySorted_fmap Target); [|exact H1]. auto.
  - eapply (StronglySorted_fmap Target); [|exact H2]. auto.
Qed.

(** X9: for an [ExternalName] service the order in which the name
    lookup lists the addresses does not show: two caches whose answers
    are rearrangements of each other resolve alike. *)
Theorem CreateEndpoints_external_name_order (cache1 cache2 : Cache) (svc : api.Service)
    (svcPort : api.ServicePort) (useEndpointSlices : bool) (tr : list Call)
    (addr1 addr2 : list string) :
  api.Spec_Type svc = api.ServiceTypeExternalName ->
  ExternalNameLookup cache1 (api.Spec_ExternalName svc) = inl addr1 ->
  ExternalNameLookup cache2 (api.Spec_ExternalName svc) = inl addr2 ->
  addr1 ≡ₚ addr2 ->
  CreateEndpoints cache1 svc svcPort useEndpointSlices tr
  = CreateEndpoints cache2 svc svcPort useEndpointSlices tr.
Proof.
  intros He H1 H2 Hperm. apply is_external in He.
  unfold CreateEndpoints, createEndpointsExternalName. rewrite He. step.
  destruct (api.SvcPort_Port svcPort <=? 0); [reflexivity|].
  rewrite H1, H2. cbn [lift_res]. do 3 f_equal.
  apply (StronglySorted_unique_strong
           (fun a b : Endpoint => String.le (Target a) (Target b)));
    [|apply sort_by_Target_sorted..|].
  - intros x1 x2 Hx1 Hx2 Hle1 Hle2.
    rewrite sort_by_Target_perm in Hx1. rewrite sort_by_Target_perm in Hx2.
    apply list_elem_of_fmap in Hx1 as (ip1 & -> & _).
    apply list_elem_of_fmap in Hx2 as (ip2 & -> & _).
    assert (Ht : Target (newEndpoint ip1 (api.SvcPort_Port svcPort) None)
                 = Target (newEndpoint ip2 (api.SvcPort_Port svcPort) None))
      by (apply (anti_symm String.le); assumption).
    cbn [newEndpoint Target] in Ht. apply colon_number_inj in Ht as [-> _].
    reflexivity.
  - rewrite !sort_by_Target_perm. apply Permutation_map. exact Hperm.
Qed.

Lemma CreateEndpoints_external_name_order_witness :
  CreateEndpoints dns_cache external_svc http_port false []
  = CreateEndpoints (scripted_cache (inl []) (inl legacy_endpoints)
                       (inl ["192.0.2.3"; "192.0.2.7"]) ∅)
      external_svc http_port false [].
Proof.
  apply (CreateEndpoints_external_name_order dns_cache _ external_svc http_port false []
           ["192.0.2.7"; "192.0.2.3"] ["192.0.2.3"; "192.0.2.7"]);
    try reflexivity.
  apply Permutation_swap.
Defined.

(** The targets of the resolved slice endpoints do not depend on the
    cache, and rearranging the slices rearranges them. *)
Lemma resolved_targets_perm (cache1 cache2 : Cache) (svcPort : api.ServicePort)
    (ready : bool) (l1 l2 : list discoveryv1.EndpointSlice) :
  l1 ≡ₚ l2 ->
  map Target (resolved cache1 svcPort ready l1)
  ≡ₚ map Target (resolved cache2 svcPort ready l2).
Proof.
  intros Hperm.
  assert (Hfree : forall l, map Target (resolved cache1 svcPort ready l)
                            = map Target (resolved cache2 svcPort ready l)).
  { intros l. unfold resolved. induction l as [|sl l IH]; cbn; [reflexivity|].
    rewrite !map_app, IH. f_equal. clear IH.
    induction (discoveryv1.Ports sl) as [|p ps IHp]; cbn; [reflexivity|].
    rewrite !map_app, IHp. f_equal. clear IHp.
    destruct (port_selected svcPort p); [|reflexivity].
    induction (discoveryv1.Endpoints sl) as [|e es IHe]; cbn; [reflexivity|].
    rewrite !map_app, IHe. f_equal.
    destruct (Bool.eqb (is_ready e) ready); reflexivity. }
  rewrite Hfree. apply Permutation_map. unfold resolved.
  apply Permutation_flat_map. exact Hperm.
Qed.

Lemma slices_run (cache : Cache) (endpointSlices : list discoveryv1.EndpointSlice)
    (svcPort : api.ServicePort) (tr : list Call) :
  ports_set endpointSlices -> addresses_set endpointSlices ->
  exists tr',
    createEndpointSlices cache endpointSlices svcPort tr
    = Ok (resolved cache svcPort true endpointSlices,
          resolved cache svcPort false endpointSlices, None) tr'.
Proof.
  intros Hports Haddrs.
  destruct (createEndpointSlices_total cache endpointSlices svcPort tr Hports Haddrs)
    as (r & n & tr' & Hrun).
  pose proof Hrun as Heq.
  apply createEndpointSlices_resolved in Heq as (<- & <- & _). eauto.
Qed.

(** X10: the order of the endpoint slices does not show in the
    targets: two caches listing the same slices in a different order
    give the same targets in the same order, ready and not. *)
Theorem CreateEndpoints_slice_order (cache1 cache2 : Cache) (svc : api.Service)
    (svcPort : api.ServicePort) (tr1 tr2 : list Call)
    (slices1 slices2 : list discoveryv1.EndpointSlice) :
  api.Spec_Type svc <> api.ServiceTypeExternalName ->
  GetEndpointSlices cache1 svc = inl slices1 ->
  GetEndpointSlices cache2 svc = inl slices2 ->
  slices1 ≡ₚ slices2 ->
  ports_set slices1 -> addresses_set slices1 ->
  exists ready1 notReady1 tr1' ready2 notReady2 tr2',
    CreateEndpoints cache1 svc svcPort true tr1 = Ok (ready1, notReady1, None) tr1'
    /\ CreateEndpoints cache2 svc svcPort true tr2 = Ok (ready2, notReady2, None) tr2'
    /\ map Target ready1 = map Target ready2
    /\ map Target notReady1 = map Target notReady2.
Proof.
  intros Hne H1 H2 Hperm Hports Haddrs.
  assert (Hports2 : ports_set slices2) by (unfold ports_set; rewrite <- Hperm; exact Hports).
  assert (Haddrs2 : addresses_set slices2)
    by (unfold addresses_set; rewrite <- Hperm; exact Haddrs).
  destruct (slices_run cache1 slices1 svcPort (tr1 ++ [CallGetEndpointSlices svc])
              Hports Haddrs) as [t1 Hr1].
  destruct (slices_run cache2 slices2 svcPort (tr2 ++ [CallGetEndpointSlices svc])
              Hports2 Haddrs2) as [t2 Hr2].
  unfold CreateEndpoints. rewrite (not_external svc Hne). step. rewrite H1, H2.
  cbn [lift_res]. rewrite Hr1, Hr2. do 6 eexists.
  split; [reflexivity|]. split; [reflexivity|].
  split; apply sorted_targets_unique; try apply sort_by_Target_sorted;
    rewrite !sort_by_Target_perm; apply resolved_targets_perm; exact Hperm.
Qed.


(** X11: outside [ExternalName], [CreateEndpoints] returns the
    endpoints its helper collected, none lost or added, each list
    rearranged in the order of the targets; with a nil error. *)
Theorem CreateEndpoints_rearranges (cache : Cache) (svc : api.Service)
    (svcPort : api.ServicePort) (tr : list Call) :
  api.Spec_Type svc <> api.ServiceTypeExternalName ->
  (forall endpoints,
     GetEndpoints cache svc = inl endpoints ->
     exists ready notReady tr',
       CreateEndpoints cache svc svcPort false tr = Ok (ready, notReady, None) tr'
       /\ ready ≡ₚ legacy_ready cache svcPort endpoints
       /\ notReady ≡ₚ legacy_notReady svcPort endpoints
       /\ sorted_by_Target ready /\ sorted_by_Target notReady)
  /\ (forall endpointSlices,
        GetEndpointSlices cache svc = inl endpointSlices ->
        ports_set endpointSlices -> addresses_set endpointSlices ->
        exists ready notReady tr',
          CreateEndpoints cache svc svcPort true tr = Ok (ready, notReady, None) tr'
          /\ ready ≡ₚ resolved cache svcPort true endpointSlices
          /\ notReady ≡ₚ resolved cache svcPort false endpointSlices
          /\ sorted_by_Target ready /\ sorted_by_Target notReady).
Proof.
  intros Hne. unfold CreateEndpoints. rewrite (not_external svc Hne). split.
  - intros endpoints Hget. step. rewrite Hget. cbn [lift_res].
    destruct (legacy_run cache endpoints svcPort (tr ++ [CallGetEndpoints svc]))
      as [tr' ->].
    do 3 eexists. split; [reflexivity|].
    repeat split; first [apply sort_by_Target_perm | apply sort_by_Target_sorted].
  - intros endpointSlices Hget Hports Haddrs. step. rewrite Hget. cbn [lift_res].
    destruct (slices_run cache endpointSlices svcPort
                (tr ++ [CallGetEndpointSlices svc]) Hports Haddrs) as [tr' ->].
    do 3 eexists. split; [reflexivity|].
    repeat split; first [apply sort_by_Target_perm | apply sort_by_Target_sorted].
Qed.

Lemma CreateEndpoints_slice_order_witness :
  api.Spec_Type cluster_svc <> api.ServiceTypeExternalName
  /\ [slice_of ["10.0.0.9"]; slice_of ["10.0.0.1"]]
     ≡ₚ [slice_of ["10.0.0.1"]; slice_of ["10.0.0.9"]]
  /\ exists ready1 notReady1 tr1' ready2 notReady2 tr2',
      CreateEndpoints (slices_cache [slice_of ["10.0.0.9"]; slice_of ["10.0.0.1"]])
        cluster_svc http_port true [] = Ok (ready1, notReady1, None) tr1'
      /\ CreateEndpoints (slices_cache [slice_of ["10.0.0.1"]; slice_of ["10.0.0.9"]])
           cluster_svc http_port true [] = Ok (ready2, notReady2, None) tr2'
      /\ map Target ready1 = map Target ready2
      /\ map Target notReady1 = map Target notReady2.
Proof.
  assert (Hne : api.Spec_Type cluster_svc <> api.ServiceTypeExternalName)
    by discriminate.
  split; [exact Hne|]. split; [apply Permutation_swap|].
  apply (CreateEndpoints_slice_order
           (slices_cache [slice_of ["10.0.0.9"]; slice_of ["10.0.0.1"]])
           (slices_cache [slice_of ["10.0.0.1"]; slice_of ["10.0.0.9"]])
           cluster_svc http_port [] []
           [slice_of ["10.0.0.9"]; slice_of ["10.0.0.1"]]
           [slice_of ["10.0.0.1"]; slice_of ["10.0.0.9"]] Hne eq_refl eq_refl
           (Permutation_swap _ _ _)).
  - repeat constructor; eexists; reflexivity.
  - repeat constructor; discriminate.
Defined.

Lemma CreateEndpoints_rearranges_witness :
  api.Spec_Type cluster_svc <> api.ServiceTypeExternalName
  /\ exists ready notReady tr',
      CreateEndpoints legacy_cache cluster_svc http_port false []
      = Ok (ready, notReady, None) tr'
      /\ ready ≡ₚ legacy_ready legacy_cache http_port legacy_endpoints
      /\ notReady ≡ₚ legacy_notReady http_port legacy_endpoints
      /\ sorted_by_Target ready /\ sorted_by_Target notReady.
Proof.
  assert (Hne : api.Spec_Type cluster_svc <> api.ServiceTypeExternalName)
    by discriminate.
  split; [exact Hne|].
  exact (proj1 (CreateEndpoints_rearranges legacy_cache cluster_svc http_port [] Hne)
           legacy_endpoints eq_refl).
Defined.

Lemma quiet_refl (s : list Call) : quiet s s.
Proof. exists []. rewrite app_nil_r. auto. Qed.

Lemma quiet_trans (s1 s2 s3 : list Call) : quiet s1 s2 -> quiet s2 s3 -> quiet s1 s3.
Proof.
  intros (e1 & -> & H1) (e2 & -> & H2). exists (e1 ++ e2).
  rewrite app_assoc, List.filter_app, H1, H2. auto.
Qed.

Lemma quiet_bind {A B : Type} (m : M (list Call) A) (k : A -> M (list Call) B)
    (s : list Call) :
  quiet s (state_of (m s)) ->
  (forall a s1, quiet s1 (state_of (k a s1))) ->
  quiet s (state_of (bind m k s)).
Proof.
  intros Hm Hk. unfold bind. destruct (m s) as [a s1|why s1]; cbn in *; [|exact Hm].
  eapply quiet_trans; [exact Hm | apply Hk].
Qed.

Lemma quiet_emit (c : Call) (s : list Call) :
  is_data_call c = false -> quiet s (state_of (emit c s)).
Proof. intros Hc. exists [c]. cbn. rewrite Hc. auto. Qed.

Lemma quiet_ret {A : Type} (a : A) (s : list Call) : quiet s (state_of (ret a s)).
Proof. apply quiet_refl. Qed.

Lemma quiet_deref {A : Type} (p : option A) (s : list Call) :
  quiet s (state_of (deref p s)).
Proof. destruct p; apply quiet_refl. Qed.

Lemma quiet_for_range {A B : Type} (l : list A) (body : B -> A -> M (list Call) B)
    (acc : B) (s : list Call) :
  (forall acc x s, quiet s (state_of (body acc x s))) ->
  quiet s (state_of (for_range l body acc s)).
Proof.
  intros Hbody. apply (for_range_state quiet); [apply quiet_refl | apply quiet_trans|].
  intros ? ? ? _. apply Hbody.
Qed.

Lemma getNodeWeight_quiet (cache : Cache) (nodeName : option string) (s : list Call) :
  quiet s (state_of (getNodeWeight cache nodeName s)).
Proof.
  unfold getNodeWeight, klog, cacheGetNodeByName. destruct nodeName as [name|].
  - apply quiet_bind; [apply quiet_emit; reflexivity|]. intros _ s1.
    apply quiet_bind.
    { apply quiet_bind; [apply quiet_emit; reflexivity | intros; apply quiet_ret]. }
    intros [node|e] s2.
    + destruct (api.Annotations node !! nodeWeightAnnotation) as [str|];
        [|apply quiet_ret].
      destruct (Atoi str) as [weight|]; [|apply quiet_ret].
      destruct ((weight <? 1) || (weight >? 127)).
      * apply quiet_bind; [apply quiet_emit; reflexivity | intros; apply quiet_ret].
      * apply quiet_bind; [apply quiet_emit; reflexivity|]. intros _ s3.
        apply quiet_bind; [apply quiet_emit; reflexivity | intros; apply quiet_ret].
    + apply quiet_bind; [apply quiet_emit; reflexivity | intros; apply quiet_ret].
  - apply quiet_bind; [apply quiet_emit; reflexivity | intros; apply quiet_ret].
Qed.

Lemma createEndpoints_quiet (cache : Cache) (endpoints : api.Endpoints)
    (svcPort : api.ServicePort) (s : list Call) :
  quiet s (state_of (createEndpoints cache endpoints svcPort s)).
Proof.
  unfold createEndpoints. apply quiet_bind; [|intros [r n] s1; apply quiet_ret].
  apply quiet_for_range. intros acc subset s1.
  apply quiet_for_range. intros acc1 epPort s2.
  destruct (matchPort svcPort epPort); [|apply quiet_ret].
  cbv zeta. apply quiet_bind.
  - apply quiet_for_range. intros acc2 addr s3.
    apply quiet_bind; [apply getNodeWeight_quiet | intros; apply quiet_ret].
  - intros acc2 s3. apply quiet_for_range. intros. apply quiet_ret.
Qed.

Lemma createEndpointSlices_quiet (cache : Cache)
    (endpointSlices : list discoveryv1.EndpointSlice) (svcPort : api.ServicePort)
    (s : list Call) :
  quiet s (state_of (createEndpointSlices cache endpointSlices svcPort s)).
Proof.
  unfold createEndpointSlices. apply quiet_bind; [|intros [r n] s1; apply quiet_ret].
  apply quiet_for_range. intros acc endpointSlice s1.
  apply quiet_for_range. intros acc1 epPort s2. cbv zeta.
  apply quiet_bind; [apply quiet_deref|]. intros epProtocol s3.
  destruct (negb (String.eqb _ epProtocol)); [apply quiet_ret|].
  apply quiet_bind.
  - destruct (negb (String.eqb (api.SvcPort_Name svcPort) "")); [|apply quiet_ret].
    apply quiet_bind; [apply quiet_deref | intros; apply quiet_ret].
  - intros skip s4. destruct skip; [apply quiet_ret|].
    apply quiet_for_range. intros acc2 endpoint s5.
    apply quiet_bind.
    { destruct (discoveryv1.Addresses endpoint); apply quiet_refl. }
    intros address s6. apply quiet_bind; [apply quiet_deref|]. intros port s7.
    cbv zeta. apply quiet_bind; [apply getNodeWeight_quiet|]. intros weight s8.
    destruct (discoveryv1.Ready (discoveryv1.Conditions endpoint)) as [[]|];
      apply quiet_ret.
Qed.

(** X12: whatever the outcome, a resolution asks the cache for
    endpoint data at most once: the one lookup that the service type
    and the flag select, and none for an [ExternalName] service whose
    port is not positive; every other call is a node lookup or a log
    line. *)
Theorem CreateEndpoints_one_data_lookup (cache : Cache) (svc : api.Service)
    (svcPort : api.ServicePort) (useEndpointSlices : bool) (tr : list Call) :
  exists evs,
    state_of (CreateEndpoints cache svc svcPort useEndpointSlices tr) = tr ++ evs
    /\ List.filter is_data_call evs = data_lookup svc svcPort useEndpointSlices.
Proof.
  unfold CreateEndpoints, data_lookup, createEndpointsExternalName.
  destruct (String.eqb (api.Spec_Type svc) api.ServiceTypeExternalName).
  - step. destruct (api.SvcPort_Port svcPort <=? 0).
    + exists []. rewrite app_nil_r. auto.
    + destruct (ExternalNameLookup cache _) as [addr|e]; cbn;
        eexists; split; reflexivity.
  - destruct useEndpointSlices.
    + step. destruct (GetEndpointSlices cache svc) as [slices|e]; cbn [lift_res].
      2:{ eexists. split; reflexivity. }
      destruct (createEndpointSlices_quiet cache slices svcPort
                  (tr ++ [CallGetEndpointSlices svc])) as (evs & He & Hq).
      exists (CallGetEndpointSlices svc :: evs).
      split; [|cbn; rewrite Hq; reflexivity].
      destruct (createEndpointSlices cache slices svcPort _) as [[[r n] e] s1|why s1];
        cbn in *; rewrite He, <- app_assoc; reflexivity.
    + step. destruct (GetEndpoints cache svc) as [endpoints|e]; cbn [lift_res].
      2:{ eexists. split; reflexivity. }
      destruct (createEndpoints_quiet cache endpoints svcPort
                  (tr ++ [CallGetEndpoints svc])) as (evs & He & Hq).
      exists (CallGetEndpoints svc :: evs).
      split; [|cbn; rewrite Hq; reflexivity].
      destruct (createEndpoints cache endpoints svcPort _) as [[[r n] e] s1|why s1];
        cbn in *; rewrite He, <- app_assoc; reflexivity.
Qed.


Lemma getNodeWeight_reads_annotation_witness :
  GetNodeByName (weighted_node_cache "node-1" "100") "node-1"
  = inl {| api.Annotations := {[ nodeWeightAnnotation := "100" ]} |}
  /\ 1 <= 100 <= 127
  /\ getNodeWeight (weighted_node_cache "node-1" "100") (Some "node-1") []
     = Ok 100 [CallLog V4SearchingWeight; CallGetNodeByName "node-1";
               CallLog PrintfFoundWeight; CallLog V4FoundWeight].
Proof.
  assert (Hn : GetNodeByName (weighted_node_cache "node-1" "100") "node-1"
               = inl {| api.Annotations := {[ nodeWeightAnnotation := "100" ]} |})
    by reflexivity.
  assert (Ha : api.Annotations {| api.Annotations := {[ nodeWeightAnnotation := "100" ]} |}
                 !! nodeWeightAnnotation = Some (Itoa 100))
    by reflexivity.
  assert (Hr : - 2 ^ 63 <= 100 < 2 ^ 63)
    by (change (2 ^ 63) with 9223372036854775808; lia).
  split; [exact Hn|]. split; [lia|].
  exact (proj1 (getNodeWeight_reads_annotation (weighted_node_cache "node-1" "100")
                  "node-1" _ 100 [] Hn Ha Hr) ltac:(lia)).
Defined.

Lemma createEndpoints_reads_name_only_witness :
  createEndpoints legacy_cache legacy_endpoints http_port []
  = createEndpoints legacy_cache legacy_endpoints
      {| api.SvcPort_Name := "http"; api.SvcPort_Protocol := "UDP";
         api.SvcPort_Port := 53 |} [].
Proof.
  apply (proj1 (createEndpoints_reads_name_only legacy_cache legacy_endpoints http_port
                  {| api.SvcPort_Name := "http"; api.SvcPort_Protocol := "UDP";
                     api.SvcPort_Port := 53 |} [])).
  reflexivity.
Defined.

Lemma FindServicePort_first_match_witness :
  first_such (names_port "tls") web_ports (named_port "https" 443 (FromString "tls"))
  \/ (Forall (fun port => ~ names_port "tls" port) web_ports
      /\ exists n, Atoi "tls" = Some n
                   /\ first_such (numbered_port n) web_ports
                                 (named_port "https" 443 (FromString "tls"))).
Proof.
  apply (proj1 (FindServicePort_first_match web_ports "tls"
                  (named_port "https" 443 (FromString "tls")))).
  reflexivity.
Defined.

End ServicesProps.

(** ** More about the signer *)
Module AcmeMore.
Import Acme AcmeSpec AcmeProps.

Section SignerMore.
Variable C : Collaborators.

Ltac run :=
  cbv beta iota zeta delta
    [verify Notify AcmeAccount AcmeConfig bind ret gets modify panic deref logger
     emit set_self callNow cacheGetTLSSecretContent cacheSetTLSSecretContent
     clientSign callNewClient call self env trace account client expiring
     verifyCount].

Lemma sign_calls_app (evs1 evs2 : list (Event C)) :
  sign_calls (evs1 ++ evs2) = (sign_calls evs1 + sign_calls evs2)%nat.
Proof. unfold sign_calls. rewrite List.filter_app, length_app. reflexivity. Qed.

Lemma renewal_due_window (s1 s2 : signer C) (w : Env C) (secretName : string)
    (domains : list string) :
  expiring s1 <= expiring s2 ->
  renewal_due C s1 w secretName domains -> renewal_due C s2 w secretName domains.
Proof.
  unfold renewal_due. intros He.
  destruct (GetTLSSecretContent C secretName w) as [tls|]; [|auto].
  intros [H|H]; [left; lia | right; exact H].
Qed.

Lemma renewal_due_dec (s : signer C) (w : Env C) (secretName : string)
    (domains : list string) :
  renewal_due C s w secretName domains \/ ~ renewal_due C s w secretName domains.
Proof.
  rewrite <- trigger_iff_due.
  destruct (match GetTLSSecretContent C secretName w with
            | None => true | Some t => _ end); [left | right]; congruence.
Qed.

(** X13: widening the window with [AcmeConfig] never turns an issue
    into a skip: from the same state, [verify] under the wider window
    signs whenever it signs under the narrower one, and either signs at
    most once. *)
Theorem wider_window_never_skips_an_issue (st : State C) (e1 e2 : Duration)
    (secretName : string) (domains : list string) :
  HasAccount (self st) = true -> e1 <= e2 ->
  exists r1 s1 r2 s2,
    bind (AcmeConfig C e1) (fun _ => verify C secretName domains) st = Ok r1 s1
    /\ bind (AcmeConfig C e2) (fun _ => verify C secretName domains) st = Ok r2 s2
    /\ (sign_calls (trace s1) <= sign_calls (trace s2))%nat
    /\ (sign_calls (trace s2) <= sign_calls (trace st) + 1)%nat.
Proof.
  intros Hacc He. destruct st as [[a cl ex vc] w tr].
  set (at_window e := {| self := {| account := a; client := cl; expiring := e;
                                    verifyCount := vc |};
                         env := w; trace := tr |} : State C).
  assert (Hcfg : forall e (k : unit -> M (State C) (option error)),
             bind (AcmeConfig C e) k
                  {| self := {| account := a; client := cl; expiring := ex;
                                verifyCount := vc |};
                     env := w; trace := tr |}
             = k tt (at_window e)) by reflexivity.
  destruct (verify_run C (at_window e1) secretName domains Hacc)
    as (r1 & s1 & evs1 & Hr1 & Ht1 & _ & _ & _ & Hd1 & Hs1).
  destruct (verify_run C (at_window e2) secretName domains Hacc)
    as (r2 & s2 & evs2 & Hr2 & Ht2 & _ & _ & _ & Hd2 & Hs2).
  exists r1, s1, r2, s2. rewrite !Hcfg. split; [exact Hr1|]. split; [exact Hr2|].
  rewrite Ht1, Ht2, !sign_calls_app. cbn [trace at_window].
  destruct (renewal_due_dec (self (at_window e2)) w secretName domains) as [H2|H2].
  - rewrite (Hd2 H2).
    destruct (renewal_due_dec (self (at_window e1)) w secretName domains) as [H1|H1].
    + rewrite (Hd1 H1). lia.
    + destruct (Hs1 H1) as (_ & -> & _). cbn. lia.
  - assert (H1 : ~ renewal_due C (self (at_window e1)) w secretName domains).
    { intros H. apply H2. eapply renewal_due_window; [|exact H]. exact He. }
    destruct (Hs1 H1) as (_ & -> & _). destruct (Hs2 H2) as (_ & -> & _). cbn. lia.
Qed.

Lemma disabled_test (endpoint emails : string) (termsAgreed : bool) :
  String.eqb (switch_endpoint endpoint) "" && String.eqb emails "" && negb termsAgreed = true
  <-> tuple_of endpoint emails termsAgreed = disabled.
Proof.
  unfold tuple_of, disabled. rewrite !andb_true_iff, negb_true_iff.
  split.
  - intros [[H1 H2] ->]. apply String.eqb_eq in H1, H2. rewrite H1, H2. reflexivity.
  - intros [= -> -> ->]. auto.
Qed.

(** X14: [AcmeAccount] always returns and calls [NewClient] at most
    once: not at all when the normalized tuple is the stored account or
    the empty tuple, which leaves the outside world untouched, and once,
    with the normalized tuple, in every other case. *)
Theorem AcmeAccount_new_client_calls (st : State C) (endpoint emails : string)
    (termsAgreed : bool) :
  let tuple := tuple_of endpoint emails termsAgreed in
  exists st' evs,
    AcmeAccount C endpoint emails termsAgreed st = Ok tt st'
    /\ trace st' = trace st ++ evs
    /\ (tuple = account (self st) \/ tuple = disabled ->
        List.filter is_new_client evs = [] /\ env st' = env st)
    /\ (tuple <> account (self st) -> tuple <> disabled ->
        List.filter is_new_client evs = [EvNewClient tuple]
        /\ env st' = (NewClient C tuple (env st)).2).
Proof.
  intros tuple. destruct st as [[a cl ex vc] w tr].
  cbn [self account env trace expiring verifyCount client].
  pose proof (disabled_test endpoint emails termsAgreed) as Hdis. fold tuple in Hdis.
  pose proof (Account_DeepEqual_eq a tuple) as Heq.
  run. fold (tuple_of endpoint emails termsAgreed). fold tuple.
  destruct (Account_DeepEqual a tuple).
  - exists {| self := {| account := a; client := cl; expiring := ex; verifyCount := vc |};
              env := w; trace := tr |}, [].
    split; [reflexivity|]. split; [cbn; rewrite app_nil_r; reflexivity|].
    split; [auto|]. intros Hne. exfalso. apply Hne. symmetry. apply Heq. reflexivity.
  - assert (Hne : tuple <> a) by (intros <-; destruct Heq as [_ H]; discriminate (H eq_refl)).
    destruct (String.eqb (switch_endpoint endpoint) "" && String.eqb emails ""
              && negb termsAgreed).
    + eexists; exists []. split; [reflexivity|]. cbn. rewrite app_nil_r.
      split; [reflexivity|]. split; [auto|].
      intros _ Hnd. exfalso. apply Hnd, Hdis. reflexivity.
    + assert (Hnd : tuple <> disabled)
        by (intros H; destruct Hdis as [_ Hd]; discriminate (Hd H)).
      destruct (NewClient C tuple w) as [[cl'|e] w'] eqn:Hnew; cbn;
        eexists; eexists; (split; [reflexivity|]); cbn; rewrite <- !app_assoc;
        (split; [reflexivity|]); (split; [intros [H|H]; congruence|]);
        intros _ _; cbn; auto.
Qed.

(** X15: the stored account survives the empty tuple: switching the
    account off and on again with the tuple already stored makes no
    call and leaves the signer without its client, so that [Notify]
    answers with the initialization error. *)
Theorem AcmeAccount_reenable_stays_unbound (st : State C) (endpoint emails : string)
    (termsAgreed : bool) (item : Item) :
  account (self st) = tuple_of endpoint emails termsAgreed ->
  account (self st) <> disabled ->
  bind (AcmeAccount C "" "" false)
       (fun _ => AcmeAccount C endpoint emails termsAgreed) st
  = Ok tt (without_client st)
  /\ Notify C item (without_client st) = Ok (Some ErrUninitialized) (without_client st).
Proof.
  intros Hacc Hnd. split; [|reflexivity].
  destruct st as [[a cl ex vc] w tr]. cbn [self account] in Hacc, Hnd.
  unfold without_client. cbn [self account env trace expiring verifyCount client].
  assert (H1 : Account_DeepEqual a (tuple_of "" "" false) = false).
  { apply not_true_is_false. rewrite Account_DeepEqual_eq. exact Hnd. }
  assert (H2 : Account_DeepEqual a (tuple_of endpoint emails termsAgreed) = true)
    by (apply Account_DeepEqual_eq; exact Hacc).
  unfold tuple_of in H1, H2. run. rewrite H1. cbn. rewrite H2. reflexivity.
Qed.

(** X16: one run of [verify] with a bound client stores at most once
    and only after signing; [verifyCount] advances (with wrap-around)
    exactly when the signing capability is called; the account is kept;
    what is stored is stored under the requested name and is what a
    successful [Sign] of the requested domains returned; and nil is
    returned only when every signed certificate was also stored. *)
Theorem verify_counts_attempts (st : State C) (secretName : string)
    (domains : list string) :
  HasAccount (self st) = true ->
  exists r st' evs,
    verify C secretName domains st = Ok r st'
    /\ trace st' = trace st ++ evs
    /\ account (self st') = account (self st)
    /\ (store_calls evs <= sign_calls evs <= 1)%nat
    /\ verifyCount (self st')
       = (if Nat.eqb (sign_calls evs) 0 then verifyCount (self st)
          else int_wrap (verifyCount (self st) + 1))
    /\ (forall n crt key,
          EvSetTLSSecretContent n crt key ∈ evs ->
          n = secretName
          /\ exists cl e w, client (self st) = Some cl
                            /\ Sign C cl domains (env st) = (crt, key, None, w)
                            /\ SetTLSSecretContent C secretName crt key w = (e, env st'))
    /\ (r = None -> store_calls evs = sign_calls evs).
Proof.
  destruct st as [[a [cl|] ex vc] w tr]; [intros _ | discriminate].
  run.
  destruct (match GetTLSSecretContent C secretName w with
            | None => true
            | Some t => _ end).
  - destruct (Sign C cl domains w) as [[[crt key] [e|]] w1] eqn:Hsign; cbn.
    + do 3 eexists. split; [reflexivity|]. cbn. rewrite <- !app_assoc. cbn.
      split; [reflexivity|]. split; [reflexivity|]. split; [cbn; lia|].
      split; [reflexivity|]. split; [|discriminate].
      intros n crt' key' Hin. exfalso.
      repeat (apply elem_of_cons in Hin as [Hin|Hin]; [discriminate Hin|]).
      inversion Hin.
    + destruct (SetTLSSecretContent C secretName crt key w1) as [[e|] w2] eqn:Hset; cbn;
        do 3 eexists; (split; [reflexivity|]); cbn; rewrite <- !app_assoc; cbn;
        (split; [reflexivity|]); (split; [reflexivity|]); (split; [cbn; lia|]);
        (split; [reflexivity|]);
        (split; [|try discriminate; try reflexivity]);
        intros n crt' key' Hin;
        repeat (apply elem_of_cons in Hin as [Hin|Hin];
                [first [discriminate Hin | injection Hin as -> -> ->] |]);
        try (inversion Hin; fail);
        (split; [reflexivity|]); do 3 eexists; (split; [reflexivity|]);
        (split; [exact Hsign|]); exact Hset.
  - do 3 eexists. split; [reflexivity|]. cbn. rewrite <- !app_assoc. cbn.
    split; [reflexivity|]. split; [reflexivity|]. split; [cbn; lia|].
    split; [reflexivity|]. split; [|reflexivity].
    intros n crt' key' Hin. exfalso.
    repeat (apply elem_of_cons in Hin as [Hin|Hin]; [discriminate Hin|]).
    inversion Hin.
Qed.

(** X17: the guard of [Notify] is what protects [verify]: without a
    client, [verify] panics on the nil client whenever a renewal is due,
    after it has counted and logged the attempt and before any signing
    call; when no renewal is due it skips as usual. *)
Theorem verify_without_client (st : State C) (secretName : string)
    (domains : list string) :
  client (self st) = None ->
  (renewal_due C (self st) (env st) secretName domains ->
   verify C secretName domains st
   = Panic NilDereference
       {| self := {| account := account (self st); client := None;
                     expiring := expiring (self st);
                     verifyCount := int_wrap (verifyCount (self st) + 1) |};
          env := env st;
          trace := trace st ++ [EvNow; EvGetTLSSecretContent secretName;
                                EvLog InfoV2 MsgAuthorizing] |})
  /\ (~ renewal_due C (self st) (env st) secretName domains ->
      verify C secretName domains st
      = Ok None {| self := self st; env := env st;
                   trace := trace st ++ [EvNow; EvGetTLSSecretContent secretName;
                                         EvLog InfoV2 MsgSkippingSign] |}).
Proof.
  destruct st as [[a cl ex vc] w tr]. cbn [self client]. intros ->.
  pose proof (trigger_iff_due C {| account := a; client := None; expiring := ex;
                                   verifyCount := vc |} w secretName domains) as Hdue.
  cbn [expiring] in Hdue.
  cbn [self account env trace expiring verifyCount client].
  run.
  destruct (match GetTLSSecretContent C secretName w with
            | None => true
            | Some t => _ end).
  - split; [intros _ | intros H; exfalso; apply H, Hdue; reflexivity].
    cbn. rewrite <- !app_assoc. reflexivity.
  - split; [intros H; apply Hdue in H; discriminate | intros _].
    cbn. rewrite <- !app_assoc. reflexivity.
Qed.

End SignerMore.

(** *** The properties at the stand-ins *)

Lemma wider_window_never_skips_an_issue_witness :
  let st := {| self := Vault.counted 0; env := Vault.issued_world 20; trace := [] |} in
  HasAccount (self st) = true /\ 10 * day <= 30 * day
  /\ exists r1 s1 r2 s2,
      bind (AcmeConfig Vault.vault (10 * day))
           (fun _ => verify Vault.vault "site-tls" ["a.example.com"]) st = Ok r1 s1
      /\ bind (AcmeConfig Vault.vault (30 * day))
              (fun _ => verify Vault.vault "site-tls" ["a.example.com"]) st = Ok r2 s2
      /\ (sign_calls (trace s1) <= sign_calls (trace s2))%nat
      /\ (sign_calls (trace s2) <= sign_calls (trace st) + 1)%nat.
Proof.
  intros st.
  assert (Hle : 10 * day <= 30 * day) by (unfold day; lia).
  split; [reflexivity|]. split; [exact Hle|].
  exact (wider_window_never_skips_an_issue Vault.vault st (10 * day) (30 * day)
           "site-tls" ["a.example.com"] eq_refl Hle).
Defined.

Lemma AcmeAccount_new_client_calls_witness :
  exists st' evs,
    AcmeAccount scripted "v2-staging" "ops@example.com" true
      (start ready_signer (world ∅ false)) = Ok tt st'
    /\ trace st' = [] ++ evs
    /\ List.filter is_new_client evs
       = [EvNewClient (tuple_of "v2-staging" "ops@example.com" true)].
Proof.
  destruct (AcmeAccount_new_client_calls scripted (start ready_signer (world ∅ false))
              "v2-staging" "ops@example.com" true)
    as (st' & evs & Hrun & Htr & _ & Hnew).
  exists st', evs. split; [exact Hrun|]. split; [exact Htr|].
  apply Hnew; discriminate.
Defined.

Lemma AcmeAccount_reenable_stays_unbound_witness :
  account (self (start ready_signer (world ∅ false))) = tuple_of "v2" "ops@example.com" true
  /\ account (self (start ready_signer (world ∅ false))) <> disabled
  /\ bind (AcmeAccount scripted "" "" false)
          (fun _ => AcmeAccount scripted "v2" "ops@example.com" true)
          (start ready_signer (world ∅ false))
     = Ok tt (without_client (start ready_signer (world ∅ false)))
  /\ Notify scripted (ItemString "site-tls,a.example.com")
       (without_client (start ready_signer (world ∅ false)))
     = Ok (Some ErrUninitialized) (without_client (start ready_signer (world ∅ false))).
Proof.
  split; [reflexivity|]. split; [discriminate|].
  apply (AcmeAccount_reenable_stays_unbound scripted (start ready_signer (world ∅ false))
           "v2" "ops@example.com" true (ItemString "site-tls,a.example.com"));
    [reflexivity | discriminate].
Defined.

Lemma verify_counts_attempts_witness :
  let st := {| self := Vault.counted 0; env := Vault.empty_world 90; trace := [] |} in
  HasAccount (self st) = true
  /\ exists r st' evs,
      verify Vault.vault "site-tls" ["a.example.com"] st = Ok r st'
      /\ trace st' = trace st ++ evs
      /\ account (self st') = account (self st)
      /\ (store_calls evs <= sign_calls evs <= 1)%nat
      /\ verifyCount (self st')
         = (if Nat.eqb (sign_calls evs) 0 then verifyCount (self st)
            else int_wrap (verifyCount (self st) + 1))
      /\ (forall n crt key,
            EvSetTLSSecretContent n crt key ∈ evs ->
            n = "site-tls"
            /\ exists cl e w, client (self st) = Some cl
                              /\ Sign Vault.vault cl ["a.example.com"] (env st)
                                 = (crt, key, None, w)
                              /\ SetTLSSecretContent Vault.vault "site-tls" crt key w
                                 = (e, env st'))
      /\ (r = None -> store_calls evs = sign_calls evs).
Proof.
  intros st. split; [reflexivity|].
  apply (verify_counts_attempts Vault.vault st "site-tls" ["a.example.com"]).
  reflexivity.
Defined.

Lemma verify_without_client_witness :
  client (self (start no_client (world ∅ false))) = None
  /\ renewal_due scripted no_client (world ∅ false) "site-tls" ["a.example.com"]
  /\ verify scripted "site-tls" ["a.example.com"] (start no_client (world ∅ false))
     = Panic NilDereference
         ({| self := {| account := account no_client; client := None;
                       expiring := expiring no_client;
                       verifyCount := int_wrap (verifyCount no_client + 1) |};
            env := (world ∅ false : Env scripted);
            trace := [] ++ [EvNow; EvGetTLSSecretContent "site-tls";
                            EvLog InfoV2 MsgAuthorizing] |} : State scripted).
Proof.
  assert (Hdue : renewal_due scripted no_client (world ∅ false) "site-tls"
                   ["a.example.com"]) by exact I.
  split; [reflexivity|]. split; [exact Hdue|].
  exact (proj1 (verify_without_client scripted (start no_client (world ∅ false))
                  "site-tls" ["a.example.com"] eq_refl) Hdue).
Defined.

End AcmeMore.

(** ** The annotation parser *)
Module ParserProps.
Import Parser NumProps.

Lemma size_zero_lookup (a : gmap string string) (name : string) :
  Nat.eqb (size a) 0 = true -> a !! name = None.
Proof.
  intros H. apply Nat.eqb_eq in H. apply map_size_empty_iff in H. rewrite H.
  apply lookup_empty.
Qed.

Ltac settle :=
  split;
  [ first [discriminate | intros [= <-]; eauto 10]
  | intro;
    repeat match goal with
           | H : exists _, _ |- _ => destruct H
           | H : _ /\ _ |- _ => destruct H
           end; congruence ].

Section ErrorsProps.
Variables ErrMissingAnnotations ErrInvalidAnnotationName : error.
Variable NewInvalidAnnotationContent : string -> string -> error.

(** The getters at the errors of the section. *)
Local Notation "'GetInt'" :=
  (GetIntAnnotation ErrMissingAnnotations ErrInvalidAnnotationName
     NewInvalidAnnotationContent).
Local Notation "'GetIntNode'" :=
  (GetIntNodeAnnotation ErrMissingAnnotations ErrInvalidAnnotationName
     NewInvalidAnnotationContent).
Local Notation "'GetString'" :=
  (GetStringAnnotation ErrMissingAnnotations ErrInvalidAnnotationName).
Local Notation "'GetBool'" :=
  (GetBoolAnnotation ErrMissingAnnotations ErrInvalidAnnotationName
     NewInvalidAnnotationContent).

(** X18: [GetIntNodeAnnotation] is [GetIntAnnotation] with the check
    written out: on the same annotations both give the same value and
    the same error. *)
Theorem GetIntNodeAnnotation_as_GetIntAnnotation (name : string) (node : option Object) :
  GetIntNode name node = GetInt name node.
Proof.
  unfold GetIntNodeAnnotation, GetIntAnnotation, checkAnnotation.
  destruct node as [n|]; [|reflexivity].
  destruct (Nat.eqb (size (GetAnnotations n)) 0); [reflexivity|].
  destruct (String.eqb name ""); reflexivity.
Qed.

(** X19: a getter returns a value with a nil error exactly when the
    object is there, the name is not empty, the annotation is present
    and its text parses (as such, for the string getter); the test for
    an empty annotation map changes nothing about success. *)
Theorem annotation_found_iff (name : string) (ing : option Object) :
  (forall i, GetInt name ing = (i, None)
             <-> exists o val, ing = Some o /\ name <> ""
                               /\ Annotations o !! name = Some val
                               /\ Utils.Atoi val = Some i)
  /\ (forall s, GetString name ing = (s, None)
                <-> exists o, ing = Some o /\ name <> ""
                              /\ Annotations o !! name = Some s)
  /\ (forall b, GetBool name ing = (b, None)
                <-> exists o val, ing = Some o /\ name <> ""
                                  /\ Annotations o !! name = Some val
                                  /\ ParseBool val = Some b).
Proof.
  unfold GetIntAnnotation, GetStringAnnotation, GetBoolAnnotation, checkAnnotation,
    parseInt, parseString, parseBool, GetAnnotations.
  destruct ing as [o|]; [|split; [|split]; intros ?; settle].
  destruct (Nat.eqb (size (Annotations o)) 0) eqn:Hsz.
  { pose proof (size_zero_lookup _ name Hsz) as Hno. split; [|split]; intros ?; settle. }
  destruct (String.eqb_spec name "") as [->|Hne]; [split; [|split]; intros ?; settle|].
  destruct (Annotations o !! name) as [val|] eqn:Hl; [|split; [|split]; intros ?; settle].
  split; [|split].
  - intros i. destruct (Utils.Atoi val) as [j|] eqn:Ha; settle.
  - intros s. settle.
  - intros b. destruct (ParseBool val) as [c|] eqn:Ha; settle.
Qed.

(** X20: an error always comes with the zero value, and it is the
    missing-annotations error, the invalid-name error or, for the typed
    getters, the invalid-content error built from the name and the text
    found under it, which did not parse. *)
Theorem annotation_error_zero_value (name : string) (ing : option Object) :
  (forall i e, GetInt name ing = (i, Some e) ->
     i = 0 /\ (e = ErrMissingAnnotations \/ e = ErrInvalidAnnotationName
               \/ exists o val, ing = Some o /\ Annotations o !! name = Some val
                                /\ Utils.Atoi val = None
                                /\ e = NewInvalidAnnotationContent name val))
  /\ (forall s e, GetString name ing = (s, Some e) ->
        s = "" /\ (e = ErrMissingAnnotations \/ e = ErrInvalidAnnotationName))
  /\ (forall b e, GetBool name ing = (b, Some e) ->
        b = false /\ (e = ErrMissingAnnotations \/ e = ErrInvalidAnnotationName
                      \/ exists o val, ing = Some o /\ Annotations o !! name = Some val
                                       /\ ParseBool val = None
                                       /\ e = NewInvalidAnnotationContent name val)).
Proof.
  unfold GetIntAnnotation, GetStringAnnotation, GetBoolAnnotation, checkAnnotation,
    parseInt, parseString, parseBool, GetAnnotations.
  destruct ing as [o|]; [|split; [|split]; intros ? ? [= <- <-]; auto].
  destruct (Nat.eqb (size (Annotations o)) 0);
    [split; [|split]; intros ? ? [= <- <-]; auto|].
  destruct (String.eqb name ""); [split; [|split]; intros ? ? [= <- <-]; auto|].
  destruct (Annotations o !! name) as [val|] eqn:Hl;
    [|split; [|split]; intros ? ? [= <- <-]; auto].
  split; [|split].
  - intros i e. destruct (Utils.Atoi val) eqn:Ha; [discriminate|].
    intros [= <- <-]. split; [reflexivity|]. right. right. exists o, val. auto.
  - intros s e. discriminate.
  - intros b e. destruct (ParseBool val) eqn:Ha; [discriminate|].
    intros [= <- <-]. split; [reflexivity|]. right. right. exists o, val. auto.
Qed.

(** X21: a number written with [strconv.Itoa] under a name that is
    not empty is read back by [GetIntAnnotation], and its text by
    [GetStringAnnotation]. *)
Theorem written_annotation_read_back (name : string) (a : gmap string string) (i : Z) :
  name <> "" -> - 2 ^ 63 <= i < 2 ^ 63 ->
  GetInt name (Some {| Annotations := <[name := Itoa i]> a |}) = (i, None)
  /\ GetString name (Some {| Annotations := <[name := Itoa i]> a |}) = (Itoa i, None).
Proof.
  intros Hne Hi.
  unfold GetIntAnnotation, GetStringAnnotation, checkAnnotation, parseInt, parseString,
    GetAnnotations. cbn [Annotations].
  destruct (Nat.eqb (size (<[name := Itoa i]> a)) 0) eqn:Hsz.
  { apply size_zero_lookup with (name := name) in Hsz.
    rewrite lookup_insert_eq in Hsz. discriminate. }
  destruct (String.eqb_spec name "") as [->|_]; [contradiction|].
  rewrite lookup_insert_eq, (Atoi_Itoa i Hi). auto.
Qed.

(** X22: for a node that is found, [getNodeWeight] returns what
    [GetIntNodeAnnotation] reads under the weight annotation when that
    succeeds with a value between 1 and 127, and 50 otherwise, although
    it looks the annotation up itself. *)
Theorem getNodeWeight_as_annotation (cache : Utils.Cache) (nodeName : string)
    (node : Utils.api.Node) (tr : list Utils.Call) :
  Utils.GetNodeByName cache nodeName = inl node ->
  exists tr',
    Utils.getNodeWeight cache (Some nodeName) tr
    = Ok (match GetIntNode Utils.nodeWeightAnnotation
                  (Some {| Annotations := Utils.api.Annotations node |}) with
          | (weight, None) =>
              if (1 <=? weight) && (weight <=? 127) then weight
              else Utils.defaultServerWeight
          | (_, Some _) => Utils.defaultServerWeight
          end) tr'.
Proof.
  intros Hn. destruct (UtilsProps.getNodeWeight_run cache (Some nodeName) tr) as [tr' H].
  exists tr'. rewrite H. f_equal. unfold Utils.node_weight. rewrite Hn.
  unfold GetIntNodeAnnotation, parseInt, GetAnnotations. cbn [Annotations].
  destruct (Nat.eqb (size (Utils.api.Annotations node)) 0) eqn:Hsz.
  { rewrite (size_zero_lookup _ _ Hsz). reflexivity. }
  change (String.eqb Utils.nodeWeightAnnotation "") with false. cbv iota.
  destruct (Utils.api.Annotations node !! Utils.nodeWeightAnnotation) as [val|];
    [|reflexivity].
  destruct (Utils.Atoi val); reflexivity.
Qed.

End ErrorsProps.
(** *** The properties at example objects *)

Lemma annotation_found_iff_witness :
  GetIntAnnotation missing invalid_name invalid_content "weight"
    (Some {| Annotations := {[ "weight" := "100" ]} |}) = (100, None).
Proof.
  assert (Hl : Annotations {| Annotations := {[ "weight" := "100" ]} |} !! "weight"
               = Some "100") by reflexivity.
  apply (proj1 (annotation_found_iff missing invalid_name invalid_content "weight"
                  (Some {| Annotations := {[ "weight" := "100" ]} |})) 100).
  exists {| Annotations := {[ "weight" := "100" ]} |}, "100".
  split; [reflexivity|]. split; [discriminate|]. split; [exact Hl | reflexivity].
Defined.

Lemma annotation_error_zero_value_witness :
  GetIntAnnotation missing invalid_name invalid_content "" None = (0, Some missing)
  /\ (missing = missing \/ missing = invalid_name
      \/ exists o val, None = Some o /\ Annotations o !! "" = Some val
                       /\ Utils.Atoi val = None
                       /\ missing = invalid_content "" val).
Proof.
  split; [reflexivity|].
  exact (proj2 (proj1 (annotation_error_zero_value missing invalid_name invalid_content
                         "" None) 0 missing eq_refl)).
Defined.

Lemma written_annotation_read_back_witness :
  "weight" <> "" /\ - 2 ^ 63 <= 100 < 2 ^ 63
  /\ GetIntAnnotation missing invalid_name invalid_content "weight"
       (Some {| Annotations := <["weight" := Itoa 100]> ∅ |}) = (100, None)
  /\ GetStringAnnotation missing invalid_name "weight"
       (Some {| Annotations := <["weight" := Itoa 100]> ∅ |}) = (Itoa 100, None).
Proof.
  assert (Hn : "weight" <> "") by discriminate.
  assert (Hi : - 2 ^ 63 <= 100 < 2 ^ 63) by (split; [discriminate | reflexivity]).
  split; [exact Hn|]. split; [exact Hi|].
  exact (written_annotation_read_back missing invalid_name invalid_content "weight" ∅ 100
           Hn Hi).
Defined.

Lemma getNodeWeight_as_annotation_witness :
  let node := {| Utils.api.Annotations := {[ Utils.nodeWeightAnnotation := "100" ]} |} in
  Utils.GetNodeByName (Services.weighted_node_cache "node-1" "100") "node-1" = inl node
  /\ exists tr',
      Utils.getNodeWeight (Services.weighted_node_cache "node-1" "100") (Some "node-1") []
      = Ok (match GetIntNodeAnnotation missing invalid_name invalid_content
                    Utils.nodeWeightAnnotation
                    (Some {| Annotations := Utils.api.Annotations node |}) with
            | (weight, None) =>
                if (1 <=? weight) && (weight <=? 127) then weight
                else Utils.defaultServerWeight
            | (_, Some _) => Utils.defaultServerWeight
            end) tr'.
Proof.
  intros node.
  assert (Hn : Utils.GetNodeByName (Services.weighted_node_cache "node-1" "100") "node-1"
               = inl node) by reflexivity.
  split; [exact Hn|].
  exact (getNodeWeight_as_annotation missing invalid_name invalid_content
           (Services.weighted_node_cache "node-1" "100") "node-1" node [] Hn).
Defined.

End ParserProps.
